(** * trilogy: query helpers and model registry

    A shallow embedding of [helpers.ts] (criteria classification and
    normalisation, where/order assembly, the execution router [runQuery])
    and of the registry methods [model], [hasModel] and [dropModel] of
    [index.ts], together with the properties the specification states
    about them.

    JavaScript values are an inductive type; a string is a sequence of
    code units below 256, a character of [string] being one code unit
    (the texts written here are ASCII).  Arrays are dense lists.  Objects
    are association lists of their own properties, in the order in which
    the language lists them. *)

From Stdlib Require Import List String Ascii Bool ZArith Lia PeanoNat.
Import ListNotations.
Open Scope string_scope.
Open Scope list_scope.
Open Scope nat_scope.

Set Implicit Arguments.

(* ================================================================= *)
(** ** JavaScript values *)

Unset Elimination Schemes.
Inductive value : Type :=
| VUndefined
| VNull
| VBool (b : bool)
| VNum (n : Z)
| VStr (s : string)
| VFun (arity : nat)
| VArr (items : list value)
| VObj (entries : list (string * value)).
Set Elimination Schemes.

(** [typeof v], the operator of the language. *)
Definition typeof (v : value) : string :=
  match v with
  | VUndefined => "undefined"
  | VBool _ => "boolean"
  | VNum _ => "number"
  | VStr _ => "string"
  | VFun _ => "function"
  | VNull | VArr _ | VObj _ => "object"
  end.

(** [w[i]]: an element of an array, [undefined] out of range and on
    anything that is not an array. *)
Definition index (w : value) (i : nat) : value :=
  match w with
  | VArr items => nth i items VUndefined
  | _ => VUndefined
  end.

(** [Array.isArray]. *)
Definition isArray (w : value) : bool :=
  match w with VArr _ => true | _ => false end.

(** [w.length] of an array, as a natural number. *)
Definition arr_length (w : value) : nat :=
  match w with VArr items => List.length items | _ => 0 end.

(** Induction on values that reaches inside arrays and objects. *)
Section ValueInd.
Variable P : value -> Prop.
Hypothesis Hundef : P VUndefined.
Hypothesis Hnull : P VNull.
Hypothesis Hbool : forall b, P (VBool b).
Hypothesis Hnum : forall n, P (VNum n).
Hypothesis Hstr : forall s, P (VStr s).
Hypothesis Hfun : forall f, P (VFun f).
Hypothesis Harr : forall items, Forall P items -> P (VArr items).
Hypothesis Hobj :
  forall entries, Forall (fun kv => P (snd kv)) entries -> P (VObj entries).

Fixpoint value_ind' (v : value) : P v :=
  match v with
  | VUndefined => Hundef
  | VNull => Hnull
  | VBool b => Hbool b
  | VNum n => Hnum n
  | VStr s => Hstr s
  | VFun f => Hfun f
  | VArr items =>
      Harr ((fix go (l : list value) : Forall P l :=
               match l with
               | [] => Forall_nil _
               | x :: r => Forall_cons x (value_ind' x) (go r)
               end) items)
  | VObj entries =>
      Hobj ((fix go (l : list (string * value))
               : Forall (fun kv => P (snd kv)) l :=
               match l with
               | [] => Forall_nil _
               | kv :: r =>
                   Forall_cons kv (value_ind' (snd kv)) (go r)
               end) entries)
  end.
End ValueInd.

(* ================================================================= *)
(** ** The [util] module *)

Module util.

(** Modelled from the spec: [util.isString] is not part of the
    sources at hand; a column name or the random-order sentinel is a
    primitive string. *)
Definition isString (v : value) : bool :=
  match v with VStr _ => true | _ => false end.

(** Modelled from the spec: [util.isNumber] is not part of the sources
    at hand; a row count is a primitive number. *)
Definition isNumber (v : value) : bool :=
  match v with VNum _ => true | _ => false end.

(** Modelled from the spec: [util.isObject] is not part of the sources
    at hand; the Object criteria is a mapping column -> value, which
    an array is not.  The helpers below take the classifier as a
    parameter; this is the instance used on concrete inputs. *)
Definition isObject (v : value) : bool :=
  match v with VObj _ => true | _ => false end.

(** Modelled from the spec: [util.mapObj] is not part of the sources
    at hand; every value of the object goes through the function,
    keys and their order are kept. *)
Definition mapObj (o : value) (fn : value -> value) : value :=
  match o with
  | VObj entries => VObj (map (fun kv => (fst kv, fn (snd kv))) entries)
  | _ => o
  end.

End util.

(* ================================================================= *)
(** ** Errors and outcomes *)

(** The error taxonomy of the specification. *)
Inductive Error : Type :=
| InvalidCriteriaError (message : string)
| UndefinedModelError (message : string)
| DriverError (message : string)
| CallbackError (message : string).

(** The message of an error. *)
Definition message_of (e : Error) : string :=
  match e with
  | InvalidCriteriaError m | UndefinedModelError m
  | DriverError m | CallbackError m => m
  end.

(** A synchronous computation either returns or throws. *)
Inductive Result (A : Type) : Type :=
| Ok (a : A)
| Throw (e : Error).
Arguments Throw {A} e.

(** Modelled from the spec: [util.invariant] is not part of the sources
    at hand; a failed invariant on a where clause is the
    [InvalidCriteriaError] of the taxonomy, carrying the message. *)
Definition invariant {A : Type} (condition : option A) (message : string)
  : Result A :=
  match condition with
  | Some a => Ok a
  | None => Throw (InvalidCriteriaError message)
  end.

(* ================================================================= *)
(** ** The query builder, as the calls made on it *)

Inductive Clause : Type :=
| Where2 (column v : value)              (* .where(column, value) *)
| Where3 (column operator v : value)     (* .where(column, op, value) *)
| WhereObject (o : value)                (* .where({ ... }) *)
| OrderBy1 (column : value)              (* .orderBy(column) *)
| OrderBy2 (column direction : value)    (* .orderBy(column, direction) *)
| OrderByRaw (sql : string).             (* .orderByRaw(sql) *)

(** A builder is the sequence of clauses appended so far. *)
Definition QueryBuilder : Type := list Clause.

Definition where2 (partial : QueryBuilder) (c v : value) : QueryBuilder :=
  partial ++ [Where2 c v].
Definition where3 (partial : QueryBuilder) (c o v : value) : QueryBuilder :=
  partial ++ [Where3 c o v].
Definition whereObject (partial : QueryBuilder) (o : value) : QueryBuilder :=
  partial ++ [WhereObject o].
Definition orderBy1 (partial : QueryBuilder) (c : value) : QueryBuilder :=
  partial ++ [OrderBy1 c].
Definition orderBy2 (partial : QueryBuilder) (c d : value) : QueryBuilder :=
  partial ++ [OrderBy2 c d].
Definition orderByRaw (partial : QueryBuilder) (sql : string) : QueryBuilder :=
  partial ++ [OrderByRaw sql].

(* ================================================================= *)
(** ** Criteria: classification, normalisation, assembly *)

(** [v === 'text']: strict equality with a string literal. *)
Definition is_literal (v : value) (text : string) : bool :=
  match v with
  | VStr s => String.eqb s text
  | _ => false
  end.

(** [buildOrder]. *)
Definition buildOrder (partial : QueryBuilder) (order : value)
  : QueryBuilder :=
  if util.isString order then
    if is_literal order "random" then orderByRaw partial "RANDOM()"
    else orderBy1 partial order
  else if isArray order then
    if arr_length order =? 1 then orderBy1 partial (index order 0)
    else if arr_length order =? 2 then
      orderBy2 partial (index order 0) (index order 1)
    else partial
  else partial.

(** [isWhereTuple]. *)
Definition isWhereTuple (where_ : value) : bool :=
  isArray where_ &&
  ((arr_length where_ =? 2) || (arr_length where_ =? 3)) &&
  String.eqb (typeof (index where_ 0)) "string".

Section Criteria.

(** [util.isObject] and [castValue] (of [schema-helpers]) are taken as
    parameters. *)
Variable isObject : value -> bool.
Variable castValue : value -> value.

(** [isWhereMultiple]. *)
Definition isWhereMultiple (where_ : value) : bool :=
  match where_ with
  | VArr items =>
      forallb (fun item => isWhereTuple item || isObject item) items
  | _ => false
  end.

(** [isValidWhere]. *)
Definition isValidWhere (where_ : value) : bool :=
  isWhereTuple where_ || isObject where_ || isWhereMultiple where_.

(** [normalizeCriteria].  In the tuple branch the first element is a
    string, so the computed key is that string. *)
Fixpoint normalizeCriteria (where_ : value) : value :=
  if isWhereTuple where_ then
    if arr_length where_ =? 2 then
      match index where_ 0 with
      | VStr column => VObj [(column, index where_ 1)]
      | _ => where_
      end
    else where_
  else if isWhereMultiple where_ then
    match where_ with
    | VArr items => VArr (map normalizeCriteria items)
    | _ => where_
    end
  else if isObject where_ then where_
  else where_.

(** Replace the element at position [i] of an array ([cast[i] = v]). *)
Fixpoint set_nth (i : nat) (v : value) (items : list value) : list value :=
  match items, i with
  | [], _ => []
  | _ :: r, O => v :: r
  | x :: r, S j => x :: set_nth j v r
  end.

(** [buildWhere].  The tuple branch writes the cast value into the array
    it was given and returns when that array has two or three elements;
    the reduction over a list stops at the first clause that throws. *)
Fixpoint buildWhere (partial : QueryBuilder) (where_ : value)
    (inner : bool) {struct where_} : Result QueryBuilder :=
  match where_ with
  | VUndefined => Ok partial
  | _ =>
    (* what follows the tuple branch *)
    let otherwise :=
      if negb inner && isWhereMultiple where_ then
        match where_ with
        | VArr items =>
            fold_left
              (fun accumulator clause =>
                 match accumulator with
                 | Ok acc => buildWhere acc clause true
                 | Throw e => Throw e
                 end)
              items (Ok partial)
        | _ => Ok partial
        end
      else if isObject where_ then
        Ok (whereObject partial (util.mapObj where_ castValue))
      else
        invariant None
          ("invalid where clause type: '" ++ typeof where_ ++ "'")%string in
    if isWhereTuple where_ then
      let i := arr_length where_ - 1 in
      let cast :=
        match where_ with
        | VArr items => VArr (set_nth i (castValue (index where_ i)) items)
        | _ => where_
        end in
      if arr_length cast =? 2 then
        Ok (where2 partial (index cast 0) (index cast 1))
      else if arr_length cast =? 3 then
        Ok (where3 partial (index cast 0) (index cast 1) (index cast 2))
      else otherwise
    else otherwise
  end.

(** The shapes that [buildWhere] takes. *)
Definition taken (inner : bool) (where_ : value) : bool :=
  match where_ with
  | VUndefined => true
  | _ => isWhereTuple where_ || (negb inner && isWhereMultiple where_)
         || isObject where_
  end.

End Criteria.

(** A value that holds no tuple of two elements, at the top or as an
    element: what is left of the tuples are tuples of three elements. *)
Definition no_pairs (where_ : value) : bool :=
  if isWhereTuple where_ then arr_length where_ =? 3
  else
    match where_ with
    | VArr items =>
        forallb (fun item => negb (isWhereTuple item) || (arr_length item =? 3))
                items
    | _ => true
    end.

(* ================================================================= *)
(** ** Strings *)

(** The code units below 256 that [toLowerCase] changes: the letters A-Z
    and the capital letters of Latin-1 (U+00C0 to U+00DE but the
    multiplication sign U+00D7). *)
Definition capital (n : nat) : bool :=
  ((65 <=? n) && (n <=? 90)) ||
  ((192 <=? n) && (n <=? 222) && negb (n =? 215)).

(** [toLowerCase] on one code unit: a capital letter moves up by 32. *)
Definition lower_ascii (c : ascii) : ascii :=
  let n := nat_of_ascii c in
  if capital n then ascii_of_nat (n + 32) else c.

Fixpoint toLowerCase (s : string) : string :=
  match s with
  | EmptyString => EmptyString
  | String c r => String (lower_ascii c) (toLowerCase r)
  end.

(** [s.includes(sub)]. *)
Fixpoint includes (s sub : string) : bool :=
  String.prefix sub s ||
  match s with
  | EmptyString => false
  | String _ r => includes r sub
  end.

(** [s.split(' ', 1)[0]]: the text before the first space, all of [s]
    when it has none. *)
Fixpoint split_first (s : string) : string :=
  match s with
  | EmptyString => EmptyString
  | String c r => if Ascii.eqb c " " then EmptyString
                  else String c (split_first r)
  end.

Definition HAS_TABLE_SUBSTRING : string :=
  "from sqlite_master where type = 'table'".

(** [getQueryAction]. *)
Definition getQueryAction (str : string) : string :=
  toLowerCase (split_first str).

(** [s.split(sep)] with a separator of one character: the pieces of [s]
    between the separators, at least one piece. *)
Fixpoint split_on (sep : ascii) (s : string) : list string :=
  match s with
  | EmptyString => [EmptyString]
  | String c r =>
      if Ascii.eqb c sep then EmptyString :: split_on sep r
      else match split_on sep r with
           | piece :: pieces => String c piece :: pieces
           | [] => [String c EmptyString]
           end
  end.

(** [const [table, column] = location.split('.', 2)]: the first two pieces
    of a location; the column is [None] (undefined) when there is no dot. *)
Definition location_parts (location : string) : string * option string :=
  let pieces := firstn 2 (split_on "." location) in
  (nth 0 pieces EmptyString, nth_error pieces 1).

(** No character of [s] is [c]. *)
Fixpoint lacks (c : ascii) (s : string) : bool :=
  match s with
  | EmptyString => true
  | String a r => negb (Ascii.eqb a c) && lacks c r
  end.

(** Two code units that are equal or the two cases of one letter. *)
Definition same_letter (a b : ascii) : bool :=
  let x := nat_of_ascii a in
  let y := nat_of_ascii b in
  (x =? y) || (capital x && (y =? x + 32)) || (capital y && (x =? y + 32)).

(** Two texts that differ in the case of letters at most. *)
Fixpoint same_letters (s t : string) : bool :=
  match s, t with
  | EmptyString, EmptyString => true
  | String a s', String b t' => same_letter a b && same_letters s' t'
  | _, _ => false
  end.

(** No code unit of [s] is a capital letter. *)
Fixpoint uncapitalised (s : string) : bool :=
  match s with
  | EmptyString => true
  | String c r => negb (capital (nat_of_ascii c)) && uncapitalised r
  end.

(** Every code unit below 256. *)
Definition code_units : list ascii := map ascii_of_nat (seq 0 256).

(* ================================================================= *)
(** ** Tabular responses of the embedded engine *)

Record ResultSet : Type := {
  columns : list string;
  values : list (list value)
}.

(** What [db.exec] returns: one result set per statement. *)
Definition SqlJsResponse : Type := list ResultSet.

(** The digit that a code unit writes. *)
Definition digit (c : ascii) : option N :=
  let n := N_of_ascii c in
  if ((48 <=? n) && (n <=? 57))%N then Some (n - 48)%N else None.

(** The number that a text of digits writes, after the digits read so
    far. *)
Fixpoint numeral (s : string) (read : N) : option N :=
  match s with
  | EmptyString => Some read
  | String c r =>
      match digit c with
      | Some d => numeral r (10 * read + d)%N
      | None => None
      end
  end.

(** A property name that is an array index: the canonical decimal
    numeral (no leading zero) of a number below 2^32 - 1.  The language
    lists such properties first, in ascending order. *)
Definition array_index (k : string) : option N :=
  match k with
  | EmptyString => None
  | String c r =>
      if Ascii.eqb c "0" && negb (String.eqb r EmptyString) then None
      else
        match numeral k 0 with
        | Some n => if (n <=? 4294967294)%N then Some n else None
        | None => None
        end
  end.

(** [o] has an own property [k]. *)
Fixpoint obj_has (o : list (string * value)) (k : string) : bool :=
  match o with
  | [] => false
  | (k', _) :: r => String.eqb k' k || obj_has r k
  end.

(** The value of the own property [k] becomes [v]; the property keeps
    its place. *)
Fixpoint obj_replace (o : list (string * value)) (k : string) (v : value)
  : list (string * value) :=
  match o with
  | [] => []
  | (k', v') :: r =>
      if String.eqb k' k then (k', v) :: r else (k', v') :: obj_replace r k v
  end.

(** A new own property whose name is the array index [n]: before the
    first property that is no array index or a greater one. *)
Fixpoint obj_insert_index (o : list (string * value)) (n : N) (k : string)
    (v : value) : list (string * value) :=
  match o with
  | [] => [(k, v)]
  | (k', v') :: r =>
      match array_index k' with
      | Some n' =>
          if (n' <? n)%N then (k', v') :: obj_insert_index r n k v
          else (k, v) :: o
      | None => (k, v) :: o
      end
  end.

(** A new own property: among the array indices when its name is one,
    after all the properties otherwise. *)
Definition obj_insert (o : list (string * value)) (k : string) (v : value)
  : list (string * value) :=
  match array_index k with
  | Some n => obj_insert_index o n k v
  | None => o ++ [(k, v)]
  end.

(** An own data property [k] is written or made. *)
Definition obj_set (o : list (string * value)) (k : string) (v : value)
  : list (string * value) :=
  if obj_has o k then obj_replace o k v else obj_insert o k v.

(** The own property [k] of [o], [undefined] when there is none. *)
Fixpoint obj_get (o : list (string * value)) (k : string) : value :=
  match o with
  | [] => VUndefined
  | (k', v') :: r => if String.eqb k' k then v' else obj_get r k
  end.

(** The record that [parseResponse] fills: its own properties, and
    whether its prototype chain still reaches [Object.prototype], which
    holds the setter of [__proto__]. *)
Record Line : Type := {
  own : list (string * value);
  inherits : bool
}.

(** [const line = {}]. *)
Definition empty_line : Line := {| own := []; inherits := true |}.

(** [line[k] = v].  Through the setter of [__proto__] no own property is
    made: [null] becomes the prototype and cuts the chain, an object
    becomes the prototype (taken here as one that inherits from
    [Object.prototype] and holds no property that stops an assignment;
    the cells of a result set are null, numbers and strings), and any
    other value is ignored.  Every other assignment writes or makes an
    own data property. *)
Definition assign (line : Line) (k : string) (v : value) : Line :=
  if String.eqb k "__proto__" && inherits line then
    match v with
    | VNull => {| own := own line; inherits := false |}
    | _ => line
    end
  else {| own := obj_set (own line) k v; inherits := inherits line |}.

(** [line[key j] = val j], the body of the inner loop of
    [parseResponse]. *)
Definition fill (key : nat -> string) (val : nat -> value)
    (line : Line) (j : nat) : Line :=
  assign line (key j) (val j).

(** The inner loop of [parseResponse]: one record per row. *)
Definition parseLine (cols : list string) (row : list value) : value :=
  VObj (own (fold_left
               (fill (fun j => nth j cols "") (fun j => nth j row VUndefined))
               (seq 0 (List.length cols)) empty_line)).

(** [parseResponse]: only the first result set is read. *)
Definition parseResponse (contents : SqlJsResponse) : list value :=
  match contents with
  | [] => []
  | first :: _ => map (parseLine (columns first)) (values first)
  end.

(* ================================================================= *)
(** ** The registry and its collaborators *)

(** A query object: the router reads its rendered text, and the native
    driver runs it when it is awaited. *)
Record Query : Type := { toString : string }.

(** A callback either returns ([None]) or throws. *)
Definition Callback : Type := string -> option Error.

(** Modelled from the spec: the [Model] class is not part of the sources
    at hand; a model owns its table name, its schema and options and its
    hook subscriber lists, of which the on-query one is used here. *)
Record Model : Type := {
  name : string;
  schema : value;
  modelOptions : value;
  onQueryFns : list Callback
}.

Record QueryOptions : Type := {
  needResponse : bool;
  model_ : option Model
}.

(** The driver: the embedded engine ([exec], [run], [getRowsModified] on
    a handle) and the native driver ([awaitQuery], what awaiting a query
    object does).  [DB] is the state of the database. *)
Class Driver (DB : Type) : Type := {
  exec : DB -> string -> Result (SqlJsResponse * DB);
  run : DB -> string -> Result DB;
  getRowsModified : DB -> Z;
  awaitQuery : DB -> Query -> Result (value * DB)
}.

(** The schema builders of the query-builder library, the validation of
    the model options ([types.validate], which throws on options it does
    not accept) and the trigger statement of [schema-helpers], if the
    model needs one.  [createTable] takes the table name, the model and
    the validated options, from which [toKnexSchema] makes the columns.
    [construct] is [new Model(this, name, schema, options)], which
    returns the model or throws on a schema it does not accept. *)
Class Builders : Type := {
  hasTable : string -> Query;
  createTable : string -> Model -> value -> Query;
  dropTableIfExists : string -> Query;
  validate : value -> Result value;
  timestampTrigger : Model -> option Query;
  construct : string -> value -> value -> Result Model
}.

(** What reaches the pool, the engine and the storage, in order. *)
Inductive Call : Type :=
| CAcquire
| CExec (sql : string)
| CRun (sql : string)
| CGetRowsModified
| CWriteDatabase
| CRelease
| CNative (sql : string).

(** The statements of a trace. *)
Definition statement (c : Call) : option string :=
  match c with
  | CExec sql | CRun sql | CNative sql => Some sql
  | _ => None
  end.

Fixpoint issued (cs : list Call) : list string :=
  match cs with
  | [] => []
  | c :: r => match statement c with
              | Some sql => sql :: issued r
              | None => issued r
              end
  end.

(** A [Map] with string keys, in insertion order. *)
Section JsMap.
Variable V : Type.

Fixpoint map_has (m : list (string * V)) (k : string) : bool :=
  match m with
  | [] => false
  | (k', _) :: r => String.eqb k' k || map_has r k
  end.

Fixpoint map_get (m : list (string * V)) (k : string) : option V :=
  match m with
  | [] => None
  | (k', v) :: r => if String.eqb k' k then Some v else map_get r k
  end.

Fixpoint map_set (m : list (string * V)) (k : string) (v : V)
  : list (string * V) :=
  match m with
  | [] => [(k, v)]
  | (k', v') :: r =>
      if String.eqb k' k then (k', v) :: r else (k', v') :: map_set r k v
  end.

Fixpoint map_delete (m : list (string * V)) (k : string)
  : list (string * V) :=
  match m with
  | [] => []
  | (k', v') :: r =>
      if String.eqb k' k then map_delete r k else (k', v') :: map_delete r k
  end.
End JsMap.

(** The registry handle, with the state of its collaborators: the
    database behind the driver, whether the single pooled handle is free,
    what was last persisted, and the trace of calls made so far. *)
Record Trilogy (DB : Type) : Type := {
  isNative : bool;
  verbose : option Callback;
  definitions : list (string * Model);
  db : DB;
  poolFree : bool;
  storage : DB;
  calls : list Call
}.
Arguments isNative {DB} t.
Arguments verbose {DB} t.
Arguments definitions {DB} t.
Arguments db {DB} t.
Arguments poolFree {DB} t.
Arguments storage {DB} t.
Arguments calls {DB} t.

(** An asynchronous call resolves, rejects, or stays pending for ever
    (it waits for a pooled handle that nobody gives back). *)
Inductive Outcome (A : Type) : Type :=
| Resolved (a : A)
| Rejected (e : Error)
| Pending.
Arguments Rejected {A} e.
Arguments Pending {A}.

(** Truthiness of a value. *)
Definition truthy (v : value) : bool :=
  match v with
  | VUndefined | VNull => false
  | VBool b => b
  | VNum n => negb (Z.eqb n 0)
  | VStr s => negb (String.eqb s "")
  | VFun _ | VArr _ | VObj _ => true
  end.

(** [v.length]. *)
Definition length_of (v : value) : value :=
  match v with
  | VArr items => VNum (Z.of_nat (List.length items))
  | VStr s => VNum (Z.of_nat (String.length s))
  | VFun arity => VNum (Z.of_nat arity)
  | VObj entries => obj_get entries "length"
  | _ => VUndefined
  end.

(* ================================================================= *)
(** ** The key column of a schema *)

(** [props.k] for a key [k] that names no built-in property (type,
    primary, unique): the entry of an object, [undefined] on the other
    values, and a TypeError ([None]) on [undefined] and [null]. *)
Definition prop (props : value) (k : string) : option value :=
  match props with
  | VUndefined | VNull => None
  | VObj entries => Some (obj_get entries k)
  | _ => Some VUndefined
  end.

(** What [findKey] returns. *)
Record KeyInfo : Type := { key : string; hasIncrements : bool }.

(** The loop of [findKey] over the names still to visit, [found] being
    the key found so far; [None] is the TypeError of a property read. *)
Fixpoint findKey_loop (schema : list (string * value)) (keys : list string)
    (found : string) : option KeyInfo :=
  match keys with
  | [] => Some {| key := found; hasIncrements := false |}
  | name :: rest =>
      let props := obj_get schema name in
      if is_literal props "increments" then
        Some {| key := name; hasIncrements := true |}
      else
        match prop props "type" with
        | None => None
        | Some type =>
            if is_literal type "increments" then
              Some {| key := name; hasIncrements := true |}
            else
              match prop props "primary", prop props "unique" with
              | Some primary, Some unique =>
                  findKey_loop schema rest
                    (if truthy primary || truthy unique then name else found)
              | _, _ => None
              end
        end
  end.

(** [findKey], on the entries of the schema object in the order of
    [Object.keys] (column names are not integer-like). *)
Definition findKey (schema : list (string * value)) : option KeyInfo :=
  findKey_loop schema (map fst schema) "".

(** A column that makes [findKey] stop: the string 'increments' or a
    descriptor of that type. *)
Definition increments (props : value) : bool :=
  is_literal props "increments" ||
  match prop props "type" with
  | Some type => is_literal type "increments"
  | None => false
  end.

(** A column that [findKey] takes as key: a descriptor that is primary or
    unique. *)
Definition keyed (props : value) : bool :=
  match prop props "primary", prop props "unique" with
  | Some primary, Some unique => truthy primary || truthy unique
  | _, _ => false
  end.

(** A value whose properties can be read. *)
Definition readable (props : value) : bool :=
  match props with
  | VUndefined | VNull => false
  | _ => true
  end.

Module Hook.
Inductive t : Type :=
| OnQuery
| BeforeCreate | AfterCreate
| BeforeUpdate | AfterUpdate
| BeforeRemove | AfterRemove.
End Hook.

Section Registry.

Context {DB : Type} {driver : Driver DB} {builders : Builders}.

(** Computations on the registry. *)
Definition M (A : Type) : Type := Trilogy DB -> Outcome A * Trilogy DB.

Definition ret {A : Type} (a : A) : M A := fun t => (Resolved a, t).

Definition throw {A : Type} (e : Error) : M A := fun t => (Rejected e, t).

Definition bind {A B : Type} (m : M A) (k : A -> M B) : M B :=
  fun t =>
    match m t with
    | (Resolved a, t') => k a t'
    | (Rejected e, t') => (Rejected e, t')
    | (Pending, t') => (Pending, t')
    end.

Definition gets {A : Type} (f : Trilogy DB -> A) : M A :=
  fun t => (Resolved (f t), t).

Definition modify (f : Trilogy DB -> Trilogy DB) : M unit :=
  fun t => (Resolved tt, f t).

Local Notation "x <- c1 ;; c2" := (bind c1 (fun x => c2))
  (at level 61, c1 at next level, right associativity).
Local Notation "c1 ;; c2" := (bind c1 (fun _ => c2))
  (at level 61, right associativity).

Definition record (c : Call) (t : Trilogy DB) : Trilogy DB :=
  {| isNative := isNative t; verbose := verbose t;
     definitions := definitions t; db := db t; poolFree := poolFree t;
     storage := storage t; calls := calls t ++ [c] |}.

Definition set_db (d : DB) (t : Trilogy DB) : Trilogy DB :=
  {| isNative := isNative t; verbose := verbose t;
     definitions := definitions t; db := d; poolFree := poolFree t;
     storage := storage t; calls := calls t |}.

Definition set_poolFree (b : bool) (t : Trilogy DB) : Trilogy DB :=
  {| isNative := isNative t; verbose := verbose t;
     definitions := definitions t; db := db t; poolFree := b;
     storage := storage t; calls := calls t |}.

Definition set_storage (d : DB) (t : Trilogy DB) : Trilogy DB :=
  {| isNative := isNative t; verbose := verbose t;
     definitions := definitions t; db := db t; poolFree := poolFree t;
     storage := d; calls := calls t |}.

Definition set_definitions (ds : list (string * Model)) (t : Trilogy DB)
  : Trilogy DB :=
  {| isNative := isNative t; verbose := verbose t;
     definitions := ds; db := db t; poolFree := poolFree t;
     storage := storage t; calls := calls t |}.

(** A synchronous call inside an asynchronous function. *)
Definition lift {A : Type} (r : Result A) : M A :=
  fun t =>
    match r with
    | Ok a => (Resolved a, t)
    | Throw e => (Rejected e, t)
    end.

(** Calling a callback: its exception, if any, is the caller's. *)
Definition call (f : Callback) (arg : string) : M unit :=
  match f arg with
  | Some e => throw e
  | None => ret tt
  end.

(** Modelled from the spec: [Model._callHook] is not part of the
    sources at hand; the subscribers of an event fire in subscription
    order, each awaited before the next, and an error of a callback is
    not caught by the dispatcher. *)
Fixpoint dispatch (fns : list Callback) (arg : string) : M unit :=
  match fns with
  | [] => ret tt
  | fn :: rest => call fn arg ;; dispatch rest arg
  end.

Definition _callHook (m : Model) (hook : Hook.t) (arg : string) : M unit :=
  match hook with
  | Hook.OnQuery => dispatch (onQueryFns m) arg
  | _ => ret tt
  end.

(** Modelled from the spec: the pool is not part of the sources at
    hand; it holds one handle, [acquire] hands it out when it is free
    and makes the caller wait otherwise, [release] gives it back. *)
Definition acquire : M unit :=
  fun t =>
    if poolFree t then (Resolved tt, record CAcquire (set_poolFree false t))
    else (Pending, t).

Definition release : M unit :=
  modify (fun t => record CRelease (set_poolFree true t)).

(** [db.exec(sql)], [db.run(sql)], [db.getRowsModified()]. *)
Definition db_exec (sql : string) : M SqlJsResponse :=
  fun t =>
    match exec (db t) sql with
    | Ok (contents, d) => (Resolved contents, set_db d (record (CExec sql) t))
    | Throw e => (Rejected e, record (CExec sql) t)
    end.

Definition db_run (sql : string) : M unit :=
  fun t =>
    match run (db t) sql with
    | Ok d => (Resolved tt, set_db d (record (CRun sql) t))
    | Throw e => (Rejected e, record (CRun sql) t)
    end.

Definition db_getRowsModified : M Z :=
  fun t => (Resolved (getRowsModified (db t)), record CGetRowsModified t).

(** [await query] on the native driver. *)
Definition await (query : Query) : M value :=
  fun t =>
    match awaitQuery (db t) query with
    | Ok (res, d) =>
        (Resolved res, set_db d (record (CNative (toString query)) t))
    | Throw e => (Rejected e, record (CNative (toString query)) t)
    end.

(** Modelled from the spec: [writeDatabase] is not part of the sources
    at hand; it persists the serialized database back to storage. *)
Definition writeDatabase : M unit :=
  modify (fun t => record CWriteDatabase (set_storage (db t) t)).

(** [runQuery]. *)
Definition runQuery (query : Query) (options : QueryOptions) : M value :=
  let asString := toString query in
  let action := getQueryAction asString in
  (fun t => match verbose t with
            | Some f => call f asString t
            | None => ret tt t
            end) ;;
  match model_ options with
  | Some m => _callHook m Hook.OnQuery asString
  | None => ret tt
  end ;;
  native <- gets isNative ;;
  if native then
    if needResponse options then await query
    else
      res <- await query ;;
      if util.isNumber res then ret res
      else ret (if truthy res then length_of res else VNum 0)
  else
    acquire ;;
    response <-
      (if needResponse options then
         contents <- db_exec asString ;;
         let response := parseResponse contents in
         if includes (toLowerCase asString) HAS_TABLE_SUBSTRING then
           ret (VBool (negb (List.length response =? 0)))
         else ret (VArr response)
       else
         db_run asString ;;
         if existsb (String.eqb action) ["insert"; "update"; "delete"] then
           n <- db_getRowsModified ;; ret (VNum n)
         else ret VUndefined) ;;
    writeDatabase ;;
    release ;;
    ret response.

(** Modelled from the spec: the constructor of [Model] is not part of
    the sources at hand; the model that it builds when it returns owns
    its name, schema and options and has no subscriber yet. *)
Definition newModel (n : string) (sch opts : value) : Model :=
  {| name := n; schema := sch; modelOptions := opts; onQueryFns := [] |}.

(** A call that is not awaited: its outcome is dropped. *)
Definition detached {A : Type} (m : M A) : M unit :=
  fun t => (Resolved tt, snd (m t)).

(** Modelled from the spec: [createTimestampTrigger] is not part of
    the sources at hand; when the model needs a trigger, its statement
    goes through the execution router. *)
Definition createTimestampTrigger (m : Model) : M value :=
  match timestampTrigger m with
  | Some query =>
      runQuery query {| needResponse := false; model_ := Some m |}
  | None => ret VUndefined
  end.

(** [Trilogy.model]. *)
Definition model (n : string) (sch opts : value) : M Model :=
  defs <- gets definitions ;;
  match map_get defs n with
  | Some existing => ret existing
  | None =>
      m <- lift (construct n sch opts) ;;
      modify (fun t => set_definitions (map_set (definitions t) n m) t) ;;
      validated <- lift (validate opts) ;;
      let check := hasTable n in
      let query := createTable n m validated in
      native <- gets isNative ;;
      (if native then
         found <- await check ;;
         if negb (truthy found) then await query ;; ret tt else ret tt
       else
         found <- runQuery check {| needResponse := true; model_ := None |} ;;
         if negb (truthy found) then
           runQuery query {| needResponse := false; model_ := None |} ;;
           ret tt
         else ret tt) ;;
      detached (createTimestampTrigger m) ;;
      ret m
  end.

(** [Trilogy.hasModel]. *)
Definition hasModel (n : string) : M value :=
  defs <- gets definitions ;;
  if negb (map_has defs n) then ret (VBool false)
  else
    let query := hasTable n in
    runQuery query {| needResponse := true; model_ := None |}.

(** [Trilogy.dropModel]. *)
Definition dropModel (n : string) : M bool :=
  defs <- gets definitions ;;
  if negb (map_has defs n) then ret false
  else
    let query := dropTableIfExists n in
    runQuery query {| needResponse := true; model_ := None |} ;;
    modify (fun t => set_definitions (map_delete (definitions t) n) t) ;;
    ret true.

(** The getter [models]: the names defined, in the order of the map. *)
Definition models (t : Trilogy DB) : list string :=
  map fst (definitions t).

(** [Trilogy.getModel]: the invariant fails on a name that is not
    defined, with the helper and so the kind of error of [buildWhere];
    the message tells them apart. *)
Definition getModel (n : string) (t : Trilogy DB) : Result Model :=
  invariant (map_get (definitions t) n)
            ("no model defined by the name '" ++ n ++ "'")%string.

(** [Trilogy.raw]; [needResponse] may be left out. *)
Definition raw (query : Query) (needResponse : option bool) : M value :=
  runQuery query {| needResponse := match needResponse with
                                    | Some b => b
                                    | None => false
                                    end;
                    model_ := None |}.

(** The methods of [Model] are not part of the sources at hand: a call
    that the registry hands over to a model is kept as data. *)
Inductive ModelCall : Type :=
| CallFind (criteria options : value)
| CallFindIn (column : string) (criteria options : value)
| CallGet (column criteria defaultValue : value)
| CallRemove (criteria : value).

(** [column], as the value the destructuring binds. *)
Definition column_value (column : option string) : value :=
  match column with
  | Some c => VStr c
  | None => VUndefined
  end.

(** [Trilogy.find]: an absent or empty column goes to [model.find]. *)
Definition find (location : string) (criteria options : value)
    (t : Trilogy DB) : Result (Model * ModelCall) :=
  let (table, column) := location_parts location in
  match getModel table t with
  | Throw e => Throw e
  | Ok m =>
      if truthy (column_value column) then
        match column with
        | Some c => Ok (m, CallFindIn c criteria options)
        | None => Ok (m, CallFind criteria options)
        end
      else Ok (m, CallFind criteria options)
  end.

(** [Trilogy.get]: the column is passed on as it is. *)
Definition get (location : string) (criteria defaultValue : value)
    (t : Trilogy DB) : Result (Model * ModelCall) :=
  let (table, column) := location_parts location in
  match getModel table t with
  | Throw e => Throw e
  | Ok m => Ok (m, CallGet (column_value column) criteria defaultValue)
  end.

(** [Trilogy.remove]: the whole location is the name of the model. *)
Definition remove (location : string) (criteria : value) (t : Trilogy DB)
  : Result (Model * ModelCall) :=
  match getModel location t with
  | Throw e => Throw e
  | Ok m => Ok (m, CallRemove criteria)
  end.

(** The registry after a statement went through the embedded engine or
    the native driver: the database is [d], the handle is back, and
    the trace has grown by [cs]. *)
Definition finished (t : Trilogy DB) (cs : list Call) (d stored : DB)
  : Trilogy DB :=
  {| isNative := isNative t; verbose := verbose t;
     definitions := definitions t; db := d; poolFree := poolFree t;
     storage := stored; calls := calls t ++ cs |}.

(** Neither the logging callback nor an on-query subscriber throws on
    the text [sql]. *)
Definition callbacks_quiet (t : Trilogy DB) (options : QueryOptions)
    (sql : string) : Prop :=
  (forall f, verbose t = Some f -> f sql = None) /\
  (forall m, model_ options = Some m ->
             Forall (fun fn => fn sql = None) (onQueryFns m)).

(** A computation that leaves the map of models as it found it. *)
Definition keeps_definitions {A : Type} (c : M A) : Prop :=
  forall t, definitions (snd (c t)) = definitions t.

(** The actions after which the counter of modified rows is read. *)
Definition counted (action : string) : bool :=
  existsb (String.eqb action) ["insert"; "update"; "delete"].

(** The statement of [query] goes through: the callbacks are quiet and
    the backend of the registry accepts it, leaving the database [d]. *)
Definition accepted (t : Trilogy DB) (query : Query) (d : DB) : Prop :=
  callbacks_quiet t {| needResponse := true; model_ := None |}
                  (toString query) /\
  if isNative t then exists res, awaitQuery (db t) query = Ok (res, d)
  else poolFree t = true /\
       exists contents, exec (db t) (toString query) = Ok (contents, d).

End Registry.

(* ================================================================= *)
(** ** A small database, to run the registry on *)

Module Sample.

(** The tables that exist and the counter of rows last modified. *)
Record DB : Type := { tables : list string; modified : Z }.

Definition render_hasTable (n : string) : string :=
  ("select * from sqlite_master where type = 'table' and name = '"
     ++ n ++ "'")%string.

Definition render_dropTable (n : string) : string :=
  ("drop table if exists `" ++ n ++ "`")%string.

Definition render_createTable (n : string) : string :=
  ("create table `" ++ n ++ "` (`name` varchar(255))")%string.

(** [s] without the prefix [p]. *)
Fixpoint strip_prefix (p s : string) : option string :=
  match p, s with
  | EmptyString, _ => Some s
  | String a p', String b s' =>
      if Ascii.eqb a b then strip_prefix p' s' else None
  | String _ _, EmptyString => None
  end.

(** The text of [s] before the first backquote. *)
Fixpoint until_backquote (s : string) : string :=
  match s with
  | EmptyString => EmptyString
  | String c r => if Ascii.eqb c "`" then EmptyString
                  else String c (until_backquote r)
  end.

(** One statement on the database: the rows it yields and the
    database after it, or a syntax error. *)
Definition step (d : DB) (sql : string) : Result (SqlJsResponse * DB) :=
  if String.prefix "select * from sqlite_master" sql then
    let found :=
      filter (fun tbl => String.eqb (render_hasTable tbl) sql) (tables d) in
    Ok ([{| columns := ["name"];
            values := map (fun tbl => [VStr tbl]) found |}], d)
  else if String.prefix "drop table if exists " sql then
    Ok ([], {| tables :=
                 filter (fun tbl => negb (String.eqb (render_dropTable tbl) sql))
                        (tables d);
               modified := 0 |})
  else
    match strip_prefix "create table `" sql with
    | Some rest =>
        Ok ([], {| tables := tables d ++ [until_backquote rest];
                   modified := 0 |})
    | None =>
        if String.prefix "insert into " sql then
          Ok ([], {| tables := tables d; modified := 1 |})
        else if String.eqb sql "select id, name as __proto__ from users" then
          Ok ([{| columns := ["id"; "__proto__"];
                  values := [[VNum 1; VStr "Alice"]; [VNum 2; VStr "Bob"]] |}],
              d)
        else if String.prefix "select " sql then
          Ok ([{| columns := ["id"; "name"];
                  values := [[VNum 1; VStr "Alice"]; [VNum 2; VStr "Bob"]] |}],
              d)
        else Throw (DriverError "syntax error")
    end.

#[global] Instance driver : Driver DB := {|
  exec := step;
  run := fun d sql => match step d sql with
                      | Ok (_, d') => Ok d'
                      | Throw e => Throw e
                      end;
  getRowsModified := modified;
  awaitQuery := fun d q =>
    match step d (toString q) with
    | Ok (contents, d') =>
        Ok (if String.prefix "select * from sqlite_master" (toString q)
            then VBool (negb (List.length (parseResponse contents) =? 0))
            else VArr (parseResponse contents), d')
    | Throw e => Throw e
    end
|}.

(** Builders whose statements the engine above understands, and a
    constructor that throws on a schema without columns. *)
#[global] Instance builders : Builders := {|
  hasTable := fun n => {| toString := render_hasTable n |};
  createTable := fun n _ _ => {| toString := render_createTable n |};
  validate := fun opts => Ok opts;
  dropTableIfExists := fun n => {| toString := render_dropTable n |};
  timestampTrigger := fun _ => None;
  construct := fun n sch opts =>
    match sch with
    | VObj (_ :: _) => Ok (newModel n sch opts)
    | _ => invariant None "model schema must define at least one column"
    end
|}.

Definition empty : DB := {| tables := []; modified := 0 |}.

(** A registry on the embedded engine, as the constructor leaves it. *)
Definition embedded (log : option Callback) : Trilogy DB :=
  {| isNative := false; verbose := log; definitions := [];
     db := empty; poolFree := true; storage := empty; calls := [] |}.

(** A registry on the native driver. *)
Definition native (log : option Callback) : Trilogy DB :=
  {| isNative := true; verbose := log; definitions := [];
     db := empty; poolFree := true; storage := empty; calls := [] |}.

(** A logging callback that throws. *)
Definition failing : Callback :=
  fun _ => Some (CallbackError "logger failed").

(** A logging callback that returns. *)
Definition quiet : Callback := fun _ => None.

Definition person : value := VObj [("name", VStr "String")].

(** Modelled from the spec: [castValue] is not part of the sources at
    hand; it casts booleans to 0/1, and leaves numbers and strings. *)
Definition castValue (v : value) : value :=
  match v with
  | VBool true => VNum 1
  | VBool false => VNum 0
  | _ => v
  end.

(** A subscriber that throws. *)
Definition failing_hook : Callback :=
  fun _ => Some (CallbackError "subscriber failed").

(** A model of the table users with two on-query subscribers. *)
Definition hooked : Model :=
  {| name := "users"; schema := person; modelOptions := VUndefined;
     onQueryFns := [quiet; failing_hook] |}.

Definition reading : QueryOptions :=
  {| needResponse := true; model_ := None |}.

Definition writing : QueryOptions :=
  {| needResponse := false; model_ := None |}.

Definition all_users : Query := {| toString := "select * from users" |}.

Definition add_user : Query :=
  {| toString := "insert into users (name) values ('Alice')" |}.

(** A statement the engine rejects. *)
Definition misspelt : Query := {| toString := "selec * from users" |}.

(** A query of a caller that lists the users named like a table. *)
Definition named_like_a_table : Query :=
  {| toString :=
       "select name from users where name in (select name from sqlite_master where type = 'table')" |}.

(** A query of a caller that names a column [__proto__]. *)
Definition aliased : Query :=
  {| toString := "select id, name as __proto__ from users" |}.


(** A schema without columns. *)
Definition no_columns : value := VObj [].

(** The embedded registry after [model('one', schema)]. *)
Definition with_one : Trilogy DB :=
  snd (model "one" person VUndefined (embedded None)).

(** The native registry after [model('one', schema)]. *)
Definition native_with_one : Trilogy DB :=
  snd (model "one" person VUndefined (native None)).


(** [with_one] with a logging callback that throws. *)
Definition with_one_broken : Trilogy DB :=
  {| isNative := false; verbose := Some failing;
     definitions := definitions with_one;
     db := db with_one; poolFree := true; storage := db with_one;
     calls := [] |}.

(** A where clause of a tuple and an object. *)
Definition adults : value :=
  VArr [VArr [VStr "age"; VStr ">"; VNum 30];
        VObj [("active", VBool true)]].

(** A result set whose first and last columns have the same name. *)
Definition joined : ResultSet :=
  {| columns := ["id"; "name"; "id"];
     values := [[VNum 1; VStr "Alice"; VNum 7]; [VNum 2; VStr "Bob"]] |}.

(** A schema with a unique column before its increments column. *)
Definition people : list (string * value) :=
  [("email", VObj [("type", VStr "String"); ("unique", VBool true)]);
   ("id", VStr "increments");
   ("name", VFun 1)].

(** A schema with two keys and no increments column. *)
Definition accounts : list (string * value) :=
  [("email", VObj [("type", VStr "String"); ("unique", VBool true)]);
   ("code", VObj [("type", VStr "String"); ("primary", VBool true)]);
   ("name", VFun 1)].

(** A schema with a column left undefined. *)
Definition broken_schema : list (string * value) :=
  [("name", VFun 1); ("age", VUndefined); ("id", VStr "increments")].

End Sample.

(* ================================================================= *)
(** * Properties of the criteria helpers *)

Section CriteriaFacts.

Variable isObject : value -> bool.
Variable castValue : value -> value.

(** The body of [normalizeCriteria], as an equation. *)
Lemma normalizeCriteria_eq (w : value) :
  normalizeCriteria isObject w =
  if isWhereTuple w then
    if arr_length w =? 2 then
      match index w 0 with
      | VStr column => VObj [(column, index w 1)]
      | _ => w
      end
    else w
  else if isWhereMultiple isObject w then
    match w with
    | VArr items => VArr (map (normalizeCriteria isObject) items)
    | _ => w
    end
  else w.
Proof.
  destruct w; simpl; try reflexivity;
    repeat match goal with |- context [if ?b then _ else _] =>
      destruct b end; reflexivity.
Qed.

(** Only arrays are tuples or lists. *)
Lemma isWhereTuple_array (w : value) :
  isWhereTuple w = true -> exists items, w = VArr items.
Proof. destruct w; try discriminate; eauto. Qed.

Lemma not_array_fixed (w : value) :
  isArray w = false -> normalizeCriteria isObject w = w.
Proof.
  intros H. rewrite normalizeCriteria_eq.
  destruct w; try discriminate; reflexivity.
Qed.

(** The first element of a tuple is a string. *)
Lemma tuple_head (w : value) :
  isWhereTuple w = true -> exists column, index w 0 = VStr column.
Proof.
  unfold isWhereTuple. intros H.
  apply andb_true_iff in H as [_ H].
  destruct (index w 0); try discriminate; eauto.
Qed.

(** Normalisation neither makes nor unmakes a string. *)
Lemma typeof_normalize (w : value) :
  String.eqb (typeof (normalizeCriteria isObject w)) "string" = String.eqb (typeof w) "string".
Proof.
  rewrite normalizeCriteria_eq.
  destruct (isWhereTuple w) eqn:Ht.
  - destruct (isWhereTuple_array _ Ht) as [items ->].
    destruct (tuple_head _ Ht) as [c ->].
    destruct (arr_length (VArr items) =? 2); reflexivity.
  - destruct (isWhereMultiple isObject w); [destruct w|]; reflexivity.
Qed.

(** A normalised list is not a tuple, as the list was not one. *)
Lemma map_normalize_not_tuple (items : list value) :
  isWhereTuple (VArr items) = false ->
  isWhereTuple (VArr (map (normalizeCriteria isObject) items)) = false.
Proof.
  unfold isWhereTuple. simpl. rewrite length_map.
  destruct items as [|x r]; simpl; [tauto|].
  now rewrite typeof_normalize.
Qed.

(** C1. Criteria normalisation is idempotent: for every valid criteria
    shape (a tuple, an object, or a list of either),
    [normalizeCriteria (normalizeCriteria C)] equals
    [normalizeCriteria C].  The induction does not use the validity of
    the shape. *)
Theorem normalizeCriteria_idempotent (C : value) :
  isValidWhere isObject C = true ->
  normalizeCriteria isObject (normalizeCriteria isObject C)
  = normalizeCriteria isObject C.
Proof.
  intros _.
  induction C as [| | b | n | s | f | items IH | entries IH]
    using value_ind';
    try (match goal with |- _ = normalizeCriteria _ ?w =>
           now rewrite !(not_array_fixed w eq_refl) end).
  rewrite (normalizeCriteria_eq (VArr items)).
  destruct (isWhereTuple (VArr items)) eqn:Ht.
  - (* a tuple becomes an object, or stays the tuple it is *)
    destruct (tuple_head _ Ht) as [c Hc]. rewrite Hc.
    destruct (arr_length (VArr items) =? 2) eqn:Hl.
    + now rewrite not_array_fixed by reflexivity.
    + rewrite normalizeCriteria_eq, Ht, Hl. reflexivity.
  - destruct (isWhereMultiple isObject (VArr items)) eqn:Hm.
    + (* a list: its image is no tuple, and is mapped again at most *)
      rewrite normalizeCriteria_eq.
      rewrite (map_normalize_not_tuple _ Ht).
      destruct (isWhereMultiple isObject
                  (VArr (map (normalizeCriteria isObject) items)));
        [|reflexivity].
      f_equal. rewrite map_map. apply map_ext_in.
      intros x Hx. rewrite Forall_forall in IH. now apply IH.
    + rewrite normalizeCriteria_eq, Ht, Hm. reflexivity.
Qed.

(** C4. [normalizeCriteria] maps a tuple (column, value) to the object
    with the single entry column: value, leaves a tuple (column,
    operator, value) as it is, and normalises a list element by element
    in order; an array of length 2 or 3 whose first element is a string
    is treated as a tuple even when it also passes the list check. *)
Theorem normalizeCriteria_shapes :
  (forall column v,
      normalizeCriteria isObject (VArr [VStr column; v])
      = VObj [(column, v)]) /\
  (forall column operator v,
      normalizeCriteria isObject (VArr [VStr column; operator; v])
      = VArr [VStr column; operator; v]) /\
  (forall items,
      isWhereTuple (VArr items) = false ->
      isWhereMultiple isObject (VArr items) = true ->
      normalizeCriteria isObject (VArr items)
      = VArr (map (normalizeCriteria isObject) items)) /\
  (forall w,
      isWhereTuple w = true ->
      (exists column v,
          w = VArr [VStr column; v] /\
          normalizeCriteria isObject w = VObj [(column, v)]) \/
      (exists column operator v,
          w = VArr [VStr column; operator; v] /\
          normalizeCriteria isObject w = w)).
Proof.
  repeat split.
  - intros items Ht Hm. now rewrite normalizeCriteria_eq, Ht, Hm.
  - intros w Ht.
    destruct (isWhereTuple_array _ Ht) as [items ->].
    destruct (tuple_head _ Ht) as [c Hc].
    destruct items as [|x [|y [|z [|u r]]]]; try discriminate Ht;
      simpl in Hc; subst x.
    + left. now exists c, y.
    + right. now exists c, y, z.
Qed.

(** A list of a tuple and an object, clause by clause. *)
Example buildWhere_list :
  buildWhere util.isObject Sample.castValue []
    (VArr [VArr [VStr "age"; VStr ">"; VNum 30];
           VObj [("active", VBool true)]]) false
  = Ok [Where3 (VStr "age") (VStr ">") (VNum 30);
        WhereObject (VObj [("active", VNum 1)])].
Proof. reflexivity. Qed.

(** A list inside a list is not a where clause. *)
Example buildWhere_nested_list :
  buildWhere util.isObject Sample.castValue []
    (VArr [VArr [VObj [("active", VBool true)]]]) false
  = Throw (InvalidCriteriaError "invalid where clause type: 'object'").
Proof. reflexivity. Qed.

(** C5. [buildWhere] on an undefined criteria returns the builder as it
    is; on a value that is neither a tuple, nor an object, nor a list of
    tuples or objects, it raises the invalid-criteria error, whose
    message names the type received. *)
Theorem buildWhere_undefined_and_invalid :
  (forall partial inner,
      buildWhere isObject castValue partial VUndefined inner = Ok partial) /\
  (forall partial where_ inner,
      where_ <> VUndefined ->
      isWhereTuple where_ = false ->
      isObject where_ = false ->
      isWhereMultiple isObject where_ = false ->
      buildWhere isObject castValue partial where_ inner
      = Throw (InvalidCriteriaError
                 ("invalid where clause type: '" ++ typeof where_ ++ "'")%string)).
Proof.
  split; [reflexivity|].
  intros partial w inner Hu Ht Ho Hm.
  destruct w; try congruence; simpl in *;
    rewrite ?Ht, ?Ho, ?Hm, ?andb_false_r; reflexivity.
Qed.

End CriteriaFacts.

(** C7. [buildOrder] turns the string 'random' into the raw ordering
    RANDOM(), which is not an ordering by a column of that name; it takes
    a column name and an array of one or two elements (column) or
    (column, direction); on every other shape it returns the builder as
    it is. *)
Theorem buildOrder_shapes :
  (forall partial,
      buildOrder partial (VStr "random") = orderByRaw partial "RANDOM()" /\
      buildOrder partial (VStr "random") <> orderBy1 partial (VStr "random")) /\
  (forall partial column,
      column <> "random" ->
      buildOrder partial (VStr column) = orderBy1 partial (VStr column)) /\
  (forall partial column,
      buildOrder partial (VArr [column]) = orderBy1 partial column) /\
  (forall partial column direction,
      buildOrder partial (VArr [column; direction])
      = orderBy2 partial column direction) /\
  (forall partial order,
      util.isString order = false ->
      (isArray order = false \/
       (arr_length order <> 1 /\ arr_length order <> 2)) ->
      buildOrder partial order = partial).
Proof.
  repeat split.
  - unfold buildOrder, orderByRaw, orderBy1. simpl. intros H.
    apply app_inj_tail in H as [_ H]. discriminate.
  - intros partial column Hc. unfold buildOrder. simpl.
    apply String.eqb_neq in Hc. now rewrite Hc.
  - intros partial order Hs [Ha | [H1 H2]]; unfold buildOrder; rewrite Hs.
    + now rewrite Ha.
    + apply Nat.eqb_neq in H1, H2. rewrite H1, H2.
      now destruct (isArray order).
Qed.

(* ================================================================= *)
(** * Properties of [parseResponse] *)


Lemma obj_get_replace_same (o : list (string * value)) (k : string)
    (v : value) :
  obj_has o k = true -> obj_get (obj_replace o k v) k = v.
Proof.
  induction o as [|[k' v'] r IH]; simpl; [discriminate|].
  destruct (String.eqb k' k) eqn:E; simpl; rewrite E; auto.
Qed.

Lemma obj_get_replace_other (o : list (string * value)) (k k' : string)
    (v : value) :
  k <> k' -> obj_get (obj_replace o k v) k' = obj_get o k'.
Proof.
  intros Hk. induction o as [|[k0 v0] r IH]; simpl; [reflexivity|].
  destruct (String.eqb k0 k) eqn:E; simpl.
  - apply String.eqb_eq in E. subst k0.
    apply String.eqb_neq in Hk. now rewrite Hk.
  - now rewrite IH.
Qed.

(** Where a new array index goes among the properties. *)
Lemma obj_insert_index_split (o : list (string * value)) (n : N)
    (k : string) (v : value) :
  exists before after,
    o = before ++ after /\
    obj_insert_index o n k v = before ++ (k, v) :: after.
Proof.
  induction o as [|[k' v'] r (before & after & Hr & Hi)]; simpl.
  - now exists [], [].
  - destruct (array_index k') as [n'|].
    + destruct (n' <? n)%N.
      * exists ((k', v') :: before), after. simpl. now rewrite Hi, <- Hr.
      * now exists [], ((k', v') :: r).
    + now exists [], ((k', v') :: r).
Qed.

(** Where a new property goes among the properties. *)
Lemma obj_insert_split (o : list (string * value)) (k : string) (v : value) :
  exists before after,
    o = before ++ after /\
    obj_insert o k v = before ++ (k, v) :: after.
Proof.
  unfold obj_insert. destruct (array_index k) as [n|].
  - apply obj_insert_index_split.
  - exists o, []. now rewrite app_nil_r.
Qed.

Lemma obj_get_middle (before after : list (string * value)) (k k' : string)
    (v : value) :
  obj_get (before ++ (k, v) :: after) k'
  = if obj_has before k' then obj_get (before ++ after) k'
    else if String.eqb k k' then v else obj_get (before ++ after) k'.
Proof.
  induction before as [|[k0 v0] r IH]; simpl; [reflexivity|].
  destruct (String.eqb k0 k'); simpl; auto.
Qed.

Lemma obj_has_app (before after : list (string * value)) (k : string) :
  obj_has (before ++ after) k = obj_has before k || obj_has after k.
Proof.
  induction before as [|[k0 v0] r IH]; simpl; [reflexivity|].
  now rewrite IH, orb_assoc.
Qed.

(** A property reads what was written to it. *)
Lemma obj_get_set_same (o : list (string * value)) (k : string) (v : value) :
  obj_get (obj_set o k v) k = v.
Proof.
  unfold obj_set. destruct (obj_has o k) eqn:Hh.
  - now apply obj_get_replace_same.
  - destruct (obj_insert_split o k v) as (before & after & Ho & ->).
    rewrite obj_get_middle. subst o. rewrite obj_has_app in Hh.
    apply orb_false_iff in Hh as [-> _]. now rewrite String.eqb_refl.
Qed.

(** Writing a property leaves the others as they are. *)
Lemma obj_get_set_other (o : list (string * value)) (k k' : string)
    (v : value) :
  k <> k' -> obj_get (obj_set o k v) k' = obj_get o k'.
Proof.
  intros Hk. unfold obj_set. destruct (obj_has o k).
  - now apply obj_get_replace_other.
  - destruct (obj_insert_split o k v) as (before & after & -> & ->).
    rewrite obj_get_middle. apply String.eqb_neq in Hk. rewrite Hk.
    now destruct (obj_has before k').
Qed.

Lemma assign_same (line : Line) (k : string) (v : value) :
  k <> "__proto__" -> obj_get (own (assign line k v)) k = v.
Proof.
  intros Hk. unfold assign. apply String.eqb_neq in Hk. rewrite Hk. simpl.
  apply obj_get_set_same.
Qed.

Lemma assign_other (line : Line) (k k' : string) (v : value) :
  k <> k' -> obj_get (own (assign line k v)) k' = obj_get (own line) k'.
Proof.
  intros Hk. unfold assign.
  destruct (String.eqb k "__proto__" && inherits line).
  - now destruct v.
  - simpl. now apply obj_get_set_other.
Qed.

Section FillLine.
Variable key : nat -> string.
Variable val : nat -> value.

(** Columns written later with other names leave a name as it is. *)
Lemma fill_other (js : list nat) (line : Line) (k : string) :
  (forall j, In j js -> key j <> k) ->
  obj_get (own (fold_left (fill key val) js line)) k = obj_get (own line) k.
Proof.
  revert line. induction js as [|a js IH]; intros line Hk; simpl; auto.
  rewrite IH by (intros; apply Hk; now right).
  apply assign_other. apply Hk. now left.
Qed.

(** The last column of a name holds the cell of that name. *)
Lemma fill_last (before after : list nat) (line : Line) (j : nat) :
  key j <> "__proto__" ->
  (forall b, In b after -> key b <> key j) ->
  obj_get (own (fold_left (fill key val) (before ++ j :: after) line)) (key j)
  = val j.
Proof.
  intros Hj Hafter. rewrite fold_left_app. simpl.
  rewrite fill_other by exact Hafter.
  now apply assign_same.
Qed.
End FillLine.

(** A record of [parseResponse] maps a column name to the cell of the
    last column of that name. *)
Lemma parseLine_lookup (cols : list string) (row : list value) (j : nat) :
  j < List.length cols ->
  nth j cols "" <> "__proto__" ->
  (forall j', j < j' < List.length cols -> nth j' cols "" <> nth j cols "") ->
  exists entries,
    parseLine cols row = VObj entries /\
    obj_get entries (nth j cols "") = nth j row VUndefined.
Proof.
  intros Hj Hp Hlast. eexists. split; [reflexivity|].
  replace (List.length cols) with (j + S (List.length cols - S j)) by lia.
  rewrite seq_app. simpl.
  apply (fill_last (fun j => nth j cols "") (fun j => nth j row VUndefined));
    [exact Hp|].
  intros j' Hj'. apply in_seq in Hj'. apply Hlast. lia.
Qed.

(** A name that is not in a list is not at any place of it. *)
Lemma nth_not_in (cols : list string) (k : string) (j : nat) :
  ~ In k cols -> j < List.length cols -> nth j cols "" <> k.
Proof. intros Hk Hj Heq. apply Hk. rewrite <- Heq. now apply nth_In. Qed.

(** One record per row of the first result set, in order. *)
Lemma parseResponse_rows (first : ResultSet) (rest : SqlJsResponse) :
  parseResponse (first :: rest)
  = map (parseLine (columns first)) (values first).
Proof. reflexivity. Qed.

(* ================================================================= *)
(** * Properties of the execution router and of the registry *)

Section RegistryFacts.
Context {DB : Type} {driver : Driver DB} {builders : Builders}.

Lemma dispatch_quiet (fns : list Callback) (sql : string) (t : Trilogy DB) :
  Forall (fun fn => fn sql = None) fns ->
  dispatch fns sql t = (Resolved tt, t).
Proof.
  induction 1 as [|fn fns Hfn _ IH]; [reflexivity|].
  simpl. unfold bind, call. rewrite Hfn. exact IH.
Qed.

Lemma dispatch_throws (before after : list Callback) (fn : Callback)
    (sql : string) (e : Error) (t : Trilogy DB) :
  Forall (fun g => g sql = None) before ->
  fn sql = Some e ->
  dispatch (before ++ fn :: after) sql t = (Rejected e, t).
Proof.
  intros Hb Hfn. induction Hb as [|g gs Hg _ IH]; simpl; unfold bind, call.
  - now rewrite Hfn.
  - rewrite Hg. exact IH.
Qed.


(** A quiet logging callback lets the rest run. *)
Lemma verbose_quiet {A : Type} (sql : string) (k : unit -> @M DB A)
    (t : Trilogy DB) :
  (forall f, verbose t = Some f -> f sql = None) ->
  bind (fun t => match verbose t with
                 | Some f => call f sql t
                 | None => ret tt t
                 end) k t = k tt t.
Proof.
  intros Hv. unfold bind. destruct (verbose t) as [f|] eqn:E.
  - unfold call. now rewrite (Hv f eq_refl).
  - reflexivity.
Qed.

(** Quiet subscribers let the rest run. *)
Lemma hook_quiet {A : Type} (options : QueryOptions) (sql : string)
    (k : unit -> @M DB A) (t : Trilogy DB) :
  (forall m, model_ options = Some m ->
             Forall (fun fn => fn sql = None) (onQueryFns m)) ->
  bind (match model_ options with
        | Some m => _callHook m Hook.OnQuery sql
        | None => ret tt
        end) k t = k tt t.
Proof.
  intros Hh. unfold bind. destruct (model_ options) as [m|] eqn:E.
  - simpl. now rewrite dispatch_quiet by auto.
  - reflexivity.
Qed.

Lemma record2 (t : Trilogy DB) (a b : Call) :
  calls (record b (record a t)) = calls t ++ [a; b].
Proof. simpl. now rewrite <- app_assoc. Qed.


Lemma finished_eq (t : Trilogy DB) (cs : list Call) (d stored : DB)
    (t' : Trilogy DB) :
  isNative t' = isNative t -> verbose t' = verbose t ->
  definitions t' = definitions t -> db t' = d ->
  poolFree t' = poolFree t -> storage t' = stored ->
  calls t' = calls t ++ cs ->
  t' = finished t cs d stored.
Proof.
  destruct t'; simpl; intros; subst; reflexivity.
Qed.

Ltac run_router :=
  unfold bind, gets, acquire, db_exec, db_run, db_getRowsModified, await,
    writeDatabase, release, modify, ret, throw.

Ltac close_state :=
  apply finished_eq; simpl; rewrite <- ?app_assoc; auto.

Lemma runQuery_embedded_exec (t : Trilogy DB) (query : Query)
    (options : QueryOptions) (contents : SqlJsResponse) (d : DB) :
  callbacks_quiet t options (toString query) ->
  isNative t = false ->
  poolFree t = true ->
  needResponse options = true ->
  exec (db t) (toString query) = Ok (contents, d) ->
  runQuery query options t
  = (Resolved
       (if includes (toLowerCase (toString query)) HAS_TABLE_SUBSTRING
        then VBool (negb (List.length (parseResponse contents) =? 0))
        else VArr (parseResponse contents)),
     finished t [CAcquire; CExec (toString query); CWriteDatabase; CRelease]
              d d).
Proof.
  intros [Hv Hh] Hn Hp Hr He.
  unfold runQuery. rewrite verbose_quiet, hook_quiet by assumption.
  run_router. rewrite Hn, Hp, Hr. simpl. rewrite He.
  destruct (includes _ _); f_equal; close_state.
Qed.

Lemma runQuery_embedded_run (t : Trilogy DB) (query : Query)
    (options : QueryOptions) (d : DB) :
  callbacks_quiet t options (toString query) ->
  isNative t = false ->
  poolFree t = true ->
  needResponse options = false ->
  run (db t) (toString query) = Ok d ->
  runQuery query options t
  = (Resolved
       (if counted (getQueryAction (toString query))
        then VNum (getRowsModified d) else VUndefined),
     finished t
       ([CAcquire; CRun (toString query)]
          ++ (if counted (getQueryAction (toString query))
              then [CGetRowsModified] else [])
          ++ [CWriteDatabase; CRelease])
       d d).
Proof.
  intros [Hv Hh] Hn Hp Hr He.
  unfold runQuery. rewrite verbose_quiet, hook_quiet by assumption.
  run_router. rewrite Hn, Hp, Hr. simpl. rewrite He.
  unfold counted. simpl.
  destruct (orb _ _); f_equal; close_state.
Qed.

Lemma runQuery_native_response (t : Trilogy DB) (query : Query)
    (options : QueryOptions) (res : value) (d : DB) :
  callbacks_quiet t options (toString query) ->
  isNative t = true ->
  needResponse options = true ->
  awaitQuery (db t) query = Ok (res, d) ->
  runQuery query options t
  = (Resolved res, finished t [CNative (toString query)] d (storage t)).
Proof.
  intros [Hv Hh] Hn Hr He.
  unfold runQuery. rewrite verbose_quiet, hook_quiet by assumption.
  run_router. rewrite Hn, Hr. simpl. rewrite He.
  f_equal; close_state.
Qed.

(** A busy pool keeps the caller waiting. *)
Lemma runQuery_busy (t : Trilogy DB) (query : Query)
    (options : QueryOptions) :
  callbacks_quiet t options (toString query) ->
  isNative t = false ->
  poolFree t = false ->
  runQuery query options t = (Pending, t).
Proof.
  intros [Hv Hh] Hn Hp.
  unfold runQuery. rewrite verbose_quiet, hook_quiet by assumption.
  run_router. now rewrite Hn, Hp.
Qed.

(** When the engine throws on a read, nothing gives the handle back. *)
Lemma runQuery_exec_throws (t : Trilogy DB) (query : Query)
    (options : QueryOptions) (e : Error) :
  callbacks_quiet t options (toString query) ->
  isNative t = false ->
  poolFree t = true ->
  needResponse options = true ->
  exec (db t) (toString query) = Throw e ->
  exists t',
    runQuery query options t = (Rejected e, t') /\
    poolFree t' = false /\
    calls t' = calls t ++ [CAcquire; CExec (toString query)].
Proof.
  intros [Hv Hh] Hn Hp Hr He.
  unfold runQuery. rewrite verbose_quiet, hook_quiet by assumption.
  run_router. rewrite Hn, Hp, Hr. simpl. rewrite He.
  eexists. split; [reflexivity|]. simpl. now rewrite <- app_assoc.
Qed.

Lemma runQuery_verbose_throws (t : Trilogy DB) (query : Query)
    (options : QueryOptions) (f : Callback) (e : Error) :
  verbose t = Some f -> f (toString query) = Some e ->
  runQuery query options t = (Rejected e, t).
Proof.
  intros Hv Hf. unfold runQuery, bind at 1. rewrite Hv.
  unfold call. now rewrite Hf.
Qed.

Lemma runQuery_hook_throws (t : Trilogy DB) (query : Query)
    (options : QueryOptions) (m : Model) (before after : list Callback)
    (fn : Callback) (e : Error) :
  (forall f, verbose t = Some f -> f (toString query) = None) ->
  model_ options = Some m ->
  onQueryFns m = before ++ fn :: after ->
  Forall (fun g => g (toString query) = None) before ->
  fn (toString query) = Some e ->
  runQuery query options t = (Rejected e, t).
Proof.
  intros Hv Hm Hfns Hb Hfn. unfold runQuery.
  rewrite verbose_quiet by assumption.
  unfold bind at 1. rewrite Hm. simpl. rewrite Hfns.
  now rewrite (@dispatch_throws before after fn (toString query) e t Hb Hfn).
Qed.


(** *** The map of models through the router *)

Lemma keeps_ret {A : Type} (a : A) :
  keeps_definitions (DB := DB) (ret a).
Proof. intros t. reflexivity. Qed.

Lemma keeps_bind {A B : Type} (c : @M DB A) (k : A -> @M DB B) :
  keeps_definitions (DB := DB) c -> (forall a, keeps_definitions (DB := DB) (k a)) ->
  keeps_definitions (DB := DB) (bind c k).
Proof.
  intros Hc Hk t. unfold bind. specialize (Hc t).
  destruct (c t) as [[a | e |] t1]; simpl in *; auto.
  now rewrite Hk.
Qed.

Lemma keeps_call (f : Callback) (arg : string) :
  keeps_definitions (DB := DB) (call f arg).
Proof. intros t. unfold call. now destruct (f arg). Qed.

Lemma keeps_dispatch (fns : list Callback) (arg : string) :
  keeps_definitions (DB := DB) (dispatch fns arg).
Proof.
  induction fns as [|fn fns IH]; simpl.
  - apply keeps_ret.
  - apply keeps_bind; auto using keeps_call.
Qed.

Lemma keeps_lift {A : Type} (r : Result A) :
  keeps_definitions (DB := DB) (lift r).
Proof. intros t. unfold lift. now destruct r. Qed.

Lemma keeps_await (query : Query) : keeps_definitions (DB := DB) (await query).
Proof.
  intros t. unfold await.
  now destruct (awaitQuery (db t) query) as [[res d] | e].
Qed.

Lemma keeps_runQuery (query : Query) (options : QueryOptions) :
  keeps_definitions (DB := DB) (runQuery query options).
Proof.
  unfold runQuery.
  repeat first
    [ apply keeps_bind; [|intros ?]
    | apply keeps_ret
    | apply keeps_await
    | apply keeps_dispatch
    | match goal with
      | |- keeps_definitions (if ?b then _ else _) => destruct b
      | |- keeps_definitions (match ?o with Some _ => _ | None => _ end) =>
          destruct o
      end ];
    try (intros t; simpl; reflexivity).
  - intros t. destruct (verbose t); [apply keeps_call | reflexivity].
  - intros t. unfold acquire. now destruct (poolFree t).
  - intros t. unfold db_exec.
    now destruct (exec (db t) (toString query)) as [[c d] | e].
  - intros t. unfold db_run.
    now destruct (run (db t) (toString query)) as [d | e].
Qed.

Lemma keeps_detached {A : Type} (c : @M DB A) :
  keeps_definitions (DB := DB) c -> keeps_definitions (DB := DB) (detached c).
Proof. intros Hc t. apply Hc. Qed.

Lemma keeps_createTimestampTrigger (m : Model) :
  keeps_definitions (DB := DB) (createTimestampTrigger m).
Proof.
  unfold createTimestampTrigger.
  destruct (timestampTrigger m); [apply keeps_runQuery | apply keeps_ret].
Qed.

Lemma bind_resolved {A B : Type} (c : @M DB A) (k : A -> @M DB B)
    (t t' : Trilogy DB) (b : B) :
  bind c k t = (Resolved b, t') ->
  exists a t1, c t = (Resolved a, t1) /\ k a t1 = (Resolved b, t').
Proof.
  unfold bind. destruct (c t) as [[a | e |] t1]; try discriminate.
  intros H. now exists a, t1.
Qed.

Lemma map_get_set (V : Type) (m : list (string * V)) (k : string) (v : V) :
  map_get (map_set m k v) k = Some v.
Proof.
  induction m as [|[k' v'] r IH]; simpl.
  - now rewrite String.eqb_refl.
  - destruct (String.eqb k' k) eqn:E; simpl; now rewrite E.
Qed.

Lemma map_has_get (V : Type) (m : list (string * V)) (k : string) :
  map_has m k = true <-> exists v, map_get m k = Some v.
Proof.
  induction m as [|[k' v'] r IH]; simpl.
  - split; [discriminate | intros [v H]; discriminate].
  - destruct (String.eqb k' k); simpl; [|exact IH].
    split; eauto.
Qed.

Lemma map_has_delete (V : Type) (m : list (string * V)) (k : string) :
  map_has (map_delete m k) k = false.
Proof.
  induction m as [|[k' v'] r IH]; simpl; auto.
  destruct (String.eqb k' k) eqn:E; simpl; auto. now rewrite E.
Qed.

Lemma issued_app (cs ds : list Call) :
  issued (cs ++ ds) = issued cs ++ issued ds.
Proof.
  induction cs as [|c cs IH]; simpl; auto.
  destruct (statement c); simpl; now rewrite IH.
Qed.

(** After a first call of [model] the name holds the model returned. *)
Lemma model_defines (t t' : Trilogy DB) (n : string) (sch opts : value)
    (m : Model) :
  model n sch opts t = (Resolved m, t') ->
  map_get (definitions t') n = Some m.
Proof.
  unfold model. intros H.
  apply bind_resolved in H as (defs & t0 & Hg & H).
  unfold gets in Hg. inversion Hg; subst defs t0; clear Hg.
  destruct (map_get (definitions t) n) as [existing|] eqn:E.
  - inversion H; subst. exact E.
  - apply bind_resolved in H as (m0 & tc & Hc & H).
    unfold lift in Hc.
    destruct (construct n sch opts) as [built|]; inversion Hc; subst; clear Hc.
    match type of H with bind ?c ?k _ = _ =>
      assert (Hk : forall a, keeps_definitions (DB := DB) (k a)) end.
    { intros a. repeat first
        [ apply keeps_runQuery | apply keeps_ret | apply keeps_await
        | apply keeps_lift
        | apply keeps_bind; [|intros ?]
        | apply keeps_detached; apply keeps_createTimestampTrigger
        | match goal with
          | |- keeps_definitions (if ?b then _ else _) => destruct b
          end ];
        intros t0; reflexivity. }
    apply bind_resolved in H as ([] & t1 & Hm & H).
    unfold modify in Hm. inversion Hm; subst t1; clear Hm.
    match type of H with _ ?t1 = _ => pose proof (Hk tt t1) as Hd end.
    cbv beta in Hd. rewrite H in Hd. simpl in Hd.
    apply bind_resolved in H as (validated & t1' & _ & H).
    apply bind_resolved in H as (native & t2 & _ & H).
    apply bind_resolved in H as (u & t3 & _ & H).
    apply bind_resolved in H as (u' & t4 & _ & H).
    inversion H; subst. rewrite Hd. apply map_get_set.
Qed.


(** C2 (amended). A failure of the logging callback, or of an on-query
    subscriber reached by the dispatch, aborts the query: [runQuery]
    rejects with that error and the registry is as before, so the pool
    was not asked for a handle and no statement was executed. *)
Theorem runQuery_callback_failure_aborts (t : Trilogy DB) (query : Query)
    (options : QueryOptions) (e : Error) :
  (exists f, verbose t = Some f /\ f (toString query) = Some e) \/
  ((forall f, verbose t = Some f -> f (toString query) = None) /\
   exists m before fn after,
     model_ options = Some m /\
     onQueryFns m = before ++ fn :: after /\
     Forall (fun g => g (toString query) = None) before /\
     fn (toString query) = Some e) ->
  runQuery query options t = (Rejected e, t).
Proof.
  intros [(f & Hv & Hf) | (Hv & m & before & fn & after & Hm & Hfns & Hb & Hfn)].
  - eapply runQuery_verbose_throws; eauto.
  - eapply runQuery_hook_throws; eauto.
Qed.

(** C6 (amended). On the embedded engine, a query run without
    [needResponse] has its statement run, and the counter of modified
    rows is read and returned exactly when the first word of its text is
    insert, update or delete; otherwise the response is undefined.  A
    query run with [needResponse] whose text does not carry the
    table-existence marker yields the records of [parseResponse], one per
    row of the first result set; when no column is named [__proto__], a
    record maps a column name to the cell of the last column of that
    name. *)
Theorem runQuery_embedded_response (t : Trilogy DB) (query : Query)
    (options : QueryOptions) :
  isNative t = false ->
  poolFree t = true ->
  callbacks_quiet t options (toString query) ->
  (needResponse options = false ->
   forall d, run (db t) (toString query) = Ok d ->
     runQuery query options t
     = (Resolved (if counted (getQueryAction (toString query))
                  then VNum (getRowsModified d) else VUndefined),
        finished t
          ([CAcquire; CRun (toString query)]
             ++ (if counted (getQueryAction (toString query))
                 then [CGetRowsModified] else [])
             ++ [CWriteDatabase; CRelease])
          d d)) /\
  (needResponse options = true ->
   includes (toLowerCase (toString query)) HAS_TABLE_SUBSTRING = false ->
   forall contents d,
     exec (db t) (toString query) = Ok (contents, d) ->
     runQuery query options t
     = (Resolved (VArr (parseResponse contents)),
        finished t
          [CAcquire; CExec (toString query); CWriteDatabase; CRelease] d d)
     /\
     forall first rest,
       contents = first :: rest ->
       parseResponse contents
       = map (parseLine (columns first)) (values first) /\
       forall row j,
         ~ In "__proto__" (columns first) ->
         j < List.length (columns first) ->
         (forall j', j < j' < List.length (columns first) ->
                     nth j' (columns first) "" <> nth j (columns first) "") ->
         exists entries,
           parseLine (columns first) row = VObj entries /\
           obj_get entries (nth j (columns first) "")
           = nth j row VUndefined).
Proof.
  intros Hn Hp Hq. split.
  - intros Hr d Hd. now apply runQuery_embedded_run.
  - intros Hr Hm contents d He. split.
    + rewrite (@runQuery_embedded_exec t query options contents d
                 Hq Hn Hp Hr He).
      now rewrite Hm.
    + intros first rest ->. split; [reflexivity|].
      intros row j Hproto Hj Hlast.
      apply parseLine_lookup; [exact Hj | now apply nth_not_in | exact Hlast].
Qed.

(** C10. On the embedded engine, a query run with [needResponse] whose
    text, in lower case, contains the table-existence marker anywhere
    has its records collapsed to a boolean: whether any row came
    back. *)
Theorem runQuery_marker_collapses (t : Trilogy DB) (query : Query)
    (options : QueryOptions) (contents : SqlJsResponse) (d : DB) :
  isNative t = false ->
  poolFree t = true ->
  callbacks_quiet t options (toString query) ->
  needResponse options = true ->
  includes (toLowerCase (toString query)) HAS_TABLE_SUBSTRING = true ->
  exec (db t) (toString query) = Ok (contents, d) ->
  runQuery query options t
  = (Resolved (VBool (negb (List.length (parseResponse contents) =? 0))),
     finished t
       [CAcquire; CExec (toString query); CWriteDatabase; CRelease] d d).
Proof.
  intros Hn Hp Hq Hr Hm He.
  rewrite (@runQuery_embedded_exec t query options contents d Hq Hn Hp Hr He). now rewrite Hm.
Qed.

(** C8. Defining a model is idempotent: [model] called with a name that
    the registry already holds returns the model held and leaves the
    registry, and so its trace of statements, as it was; in particular
    a second call after a first one returns the model of the first. *)
Theorem model_idempotent (t : Trilogy DB) (n : string) :
  (forall existing sch opts,
      map_get (definitions t) n = Some existing ->
      model n sch opts t = (Resolved existing, t)) /\
  (forall sch opts m t',
      model n sch opts t = (Resolved m, t') ->
      forall sch' opts',
        model n sch' opts' t' = (Resolved m, t')).
Proof.
  assert (Hheld : forall (u : Trilogy DB) existing sch opts,
             map_get (definitions u) n = Some existing ->
             model n sch opts u = (Resolved existing, u)).
  { intros u existing sch opts Hg. unfold model, bind, gets.
    now rewrite Hg. }
  split; [apply Hheld|].
  intros sch opts m t' Hfirst sch' opts'.
  apply Hheld. eapply model_defines; eauto.
Qed.

(** C9. [dropModel] on a name that was never defined returns false and
    leaves the registry, and so its trace of statements, as it was; on
    a defined name whose drop statement goes through, it hands that
    statement to the backend, removes the definition and returns true,
    and [hasModel] on that name then returns false. *)
Theorem dropModel_spec (t : Trilogy DB) (n : string) :
  (map_has (definitions t) n = false ->
   dropModel n t = (Resolved false, t)) /\
  (map_has (definitions t) n = true ->
   forall d, accepted t (dropTableIfExists n) d ->
     exists t',
       dropModel n t = (Resolved true, t') /\
       issued (calls t')
       = issued (calls t) ++ [toString (dropTableIfExists n)] /\
       db t' = d /\
       definitions t' = map_delete (definitions t) n /\
       hasModel n t' = (Resolved (VBool false), t')).
Proof.
  split.
  - intros Hh. unfold dropModel, bind, gets. now rewrite Hh.
  - intros Hh d [Hq Hb].
    assert (Hgone : forall u : Trilogy DB,
               definitions u = map_delete (definitions t) n ->
               hasModel n u = (Resolved (VBool false), u)).
    { intros u Hu. unfold hasModel, bind, gets.
      now rewrite Hu, map_has_delete. }
    unfold dropModel, bind at 1, gets. rewrite Hh. simpl.
    destruct (isNative t) eqn:Hn.
    + destruct Hb as [res Hb].
      unfold bind at 1.
      rewrite (@runQuery_native_response t (dropTableIfExists n) _ res d
                 Hq Hn eq_refl Hb).
      eexists. split; [reflexivity|]. simpl.
      rewrite issued_app. repeat split; auto.
    + destruct Hb as [Hp [contents Hb]].
      unfold bind at 1.
      rewrite (@runQuery_embedded_exec t (dropTableIfExists n) _ contents d
                 Hq Hn Hp eq_refl Hb).
      eexists. split; [reflexivity|]. simpl.
      rewrite issued_app. repeat split; auto.
Qed.

End RegistryFacts.

(* ================================================================= *)
(** * The properties on concrete inputs *)

(** Normalising the list [[ ('name', 'Alice'), ('age', '>', 30) ]]. *)
Lemma normalizeCriteria_idempotent_list :
  let C := VArr [VArr [VStr "name"; VStr "Alice"];
                 VArr [VStr "age"; VStr ">"; VNum 30]] in
  isValidWhere util.isObject C = true /\
  normalizeCriteria util.isObject (normalizeCriteria util.isObject C)
  = normalizeCriteria util.isObject C.
Proof.
  split; [reflexivity|].
  apply normalizeCriteria_idempotent. reflexivity.
Defined.

(** A list of a tuple and an object is normalised element by element, and
    a pair whose first element is a string is a tuple. *)
Lemma normalizeCriteria_shapes_list :
  let items := [VArr [VStr "name"; VStr "Alice"];
                VObj [("age", VNum 30)]] in
  (isWhereTuple (VArr items) = false /\
   isWhereMultiple util.isObject (VArr items) = true /\
   normalizeCriteria util.isObject (VArr items)
   = VArr (map (normalizeCriteria util.isObject) items)) /\
  (isWhereTuple (VArr [VStr "name"; VStr "Alice"]) = true /\
   ((exists column v,
        VArr [VStr "name"; VStr "Alice"] = VArr [VStr column; v] /\
        normalizeCriteria util.isObject (VArr [VStr "name"; VStr "Alice"])
        = VObj [(column, v)]) \/
    (exists column operator v,
        VArr [VStr "name"; VStr "Alice"] = VArr [VStr column; operator; v] /\
        normalizeCriteria util.isObject (VArr [VStr "name"; VStr "Alice"])
        = VArr [VStr "name"; VStr "Alice"]))).
Proof.
  pose proof (normalizeCriteria_shapes util.isObject) as (_ & _ & Hl & Ht).
  split.
  - split; [reflexivity|]. split; [reflexivity|].
    apply Hl; reflexivity.
  - split; [reflexivity|]. apply Ht. reflexivity.
Defined.

(** A number is not a where clause. *)
Lemma buildWhere_rejects_number :
  VNum 5 <> VUndefined /\
  isWhereTuple (VNum 5) = false /\
  util.isObject (VNum 5) = false /\
  isWhereMultiple util.isObject (VNum 5) = false /\
  buildWhere util.isObject (fun v => v) [] (VNum 5) false
  = Throw (InvalidCriteriaError "invalid where clause type: 'number'").
Proof.
  split; [discriminate|]. do 3 (split; [reflexivity|]).
  apply (proj2 (buildWhere_undefined_and_invalid util.isObject (fun v => v)));
    [discriminate | reflexivity | reflexivity | reflexivity].
Defined.

(** Ordering by a column, and by an array of three elements. *)
Lemma buildOrder_shapes_samples :
  ("age" <> "random" /\
   buildOrder [] (VStr "age") = orderBy1 [] (VStr "age")) /\
  (util.isString (VArr [VStr "age"; VStr "desc"; VStr "more"]) = false /\
   (isArray (VArr [VStr "age"; VStr "desc"; VStr "more"]) = false \/
    (arr_length (VArr [VStr "age"; VStr "desc"; VStr "more"]) <> 1 /\
     arr_length (VArr [VStr "age"; VStr "desc"; VStr "more"]) <> 2)) /\
   buildOrder [] (VArr [VStr "age"; VStr "desc"; VStr "more"]) = []).
Proof.
  pose proof buildOrder_shapes as (_ & Hc & _ & _ & Hn).
  assert (Hlen : arr_length (VArr [VStr "age"; VStr "desc"; VStr "more"]) <> 1 /\
                 arr_length (VArr [VStr "age"; VStr "desc"; VStr "more"]) <> 2)
    by (simpl; lia).
  split.
  - split; [discriminate|]. apply Hc. discriminate.
  - split; [reflexivity|]. split; [now right|].
    apply Hn; [reflexivity | now right].
Defined.

(** A throwing logger, then a throwing subscriber: both reject the
    query and leave the registry untouched. *)
Lemma runQuery_callback_failure_samples :
  runQuery Sample.all_users Sample.reading (Sample.embedded (Some Sample.failing))
  = (Rejected (CallbackError "logger failed"),
     Sample.embedded (Some Sample.failing)) /\
  runQuery Sample.all_users
           {| needResponse := true; model_ := Some Sample.hooked |}
           (Sample.embedded (Some Sample.quiet))
  = (Rejected (CallbackError "subscriber failed"),
     Sample.embedded (Some Sample.quiet)).
Proof.
  split.
  - apply runQuery_callback_failure_aborts.
    left. exists Sample.failing. split; reflexivity.
  - apply runQuery_callback_failure_aborts.
    right. split.
    + intros f Hf. injection Hf as <-. reflexivity.
    + exists Sample.hooked, [Sample.quiet], Sample.failing_hook, [].
      repeat split. repeat constructor.
Defined.

(** C2 (as stated) fails: with a logging callback that throws, the query
    that resolves to two records under a quiet logger is rejected, and
    no call reaches the pool or the engine. *)
Lemma logger_failure_aborts_query :
  let broken := Sample.embedded (Some Sample.failing) in
  let sound := Sample.embedded (Some Sample.quiet) in
  fst (runQuery Sample.all_users Sample.reading sound)
  = Resolved (VArr [VObj [("id", VNum 1); ("name", VStr "Alice")];
                    VObj [("id", VNum 2); ("name", VStr "Bob")]]) /\
  Sample.failing (toString Sample.all_users) <> None /\
  fst (runQuery Sample.all_users Sample.reading broken)
  = Rejected (CallbackError "logger failed") /\
  calls (snd (runQuery Sample.all_users Sample.reading broken)) = [] /\
  ~ (exists response t',
        runQuery Sample.all_users Sample.reading broken
        = (Resolved response, t')).
Proof.
  repeat split; try discriminate.
  intros (response & t' & H). discriminate H.
Qed.

(** C3 fails on the code: when the engine throws on the statement, the
    handle acquired by [runQuery] is not released; the pool stays taken
    and the next query waits for ever. *)
Theorem runQuery_throw_keeps_handle :
  let first := runQuery Sample.misspelt Sample.reading (Sample.embedded None) in
  fst first = Rejected (DriverError "syntax error") /\
  calls (snd first) = [CAcquire; CExec "selec * from users"] /\
  poolFree (snd first) = false /\
  runQuery Sample.all_users Sample.reading (snd first) = (Pending, snd first).
Proof. repeat split. Qed.

(** Without [needResponse]: an insert returns the counter, a select
    returns undefined; with it, a select returns its records. *)
Lemma runQuery_embedded_response_samples :
  let t := Sample.embedded None in
  (isNative t = false /\ poolFree t = true) /\
  fst (runQuery Sample.add_user Sample.writing t) = Resolved (VNum 1) /\
  calls (snd (runQuery Sample.add_user Sample.writing t))
  = [CAcquire; CRun (toString Sample.add_user); CGetRowsModified;
     CWriteDatabase; CRelease] /\
  fst (runQuery Sample.all_users Sample.writing t) = Resolved VUndefined /\
  fst (runQuery Sample.all_users Sample.reading t)
  = Resolved (VArr [VObj [("id", VNum 1); ("name", VStr "Alice")];
                    VObj [("id", VNum 2); ("name", VStr "Bob")]]) /\
  exists entries,
    parseLine ["id"; "name"] [VNum 1; VStr "Alice"] = VObj entries /\
    obj_get entries "name" = VStr "Alice".
Proof.
  intros t.
  assert (Hq : forall o q, model_ o = None -> callbacks_quiet t o q).
  { intros o q Ho. split; [discriminate|]. rewrite Ho. discriminate. }
  pose proof (@runQuery_embedded_response _ _ t
                Sample.add_user Sample.writing eq_refl eq_refl
                (Hq Sample.writing _ eq_refl)) as [Hadd _].
  pose proof (@runQuery_embedded_response _ _ t
                Sample.all_users Sample.writing eq_refl eq_refl
                (Hq Sample.writing _ eq_refl)) as [Hsel _].
  pose proof (@runQuery_embedded_response _ _ t
                Sample.all_users Sample.reading eq_refl eq_refl
                (Hq Sample.reading _ eq_refl)) as [_ Hread].
  split; [split; reflexivity|].
  rewrite (Hadd eq_refl _ eq_refl).
  rewrite (Hsel eq_refl _ eq_refl).
  destruct (Hread eq_refl eq_refl _ _ eq_refl) as [Hrun Hrecords].
  rewrite Hrun.
  destruct (Hrecords _ _ eq_refl) as [_ Hcell].
  split; [reflexivity|]. split; [reflexivity|]. split; [reflexivity|].
  split; [reflexivity|].
  apply (Hcell [VNum 1; VStr "Alice"] 1).
  - simpl. intuition discriminate.
  - simpl. lia.
  - simpl. intros j' Hj'. lia.
Defined.

(** C6 (as stated) fails: on the embedded engine a query run with
    [needResponse] need not resolve to records that map the column names
    to the cells.  The query of a caller whose text mentions the
    table-existence marker resolves to a boolean, although the engine
    returned two rows; and the query that names a column [__proto__]
    resolves to records without that name. *)
Lemma needResponse_without_records :
  let t := Sample.embedded None in
  (isNative t = false /\ needResponse Sample.reading = true) /\
  (exec (db t) (toString Sample.named_like_a_table)
   = Ok ([{| columns := ["id"; "name"];
             values := [[VNum 1; VStr "Alice"]; [VNum 2; VStr "Bob"]] |}],
         Sample.empty) /\
   fst (runQuery Sample.named_like_a_table Sample.reading t)
   = Resolved (VBool true)) /\
  (exec (db t) (toString Sample.aliased)
   = Ok ([{| columns := ["id"; "__proto__"];
             values := [[VNum 1; VStr "Alice"]; [VNum 2; VStr "Bob"]] |}],
         Sample.empty) /\
   fst (runQuery Sample.aliased Sample.reading t)
   = Resolved (VArr [VObj [("id", VNum 1)]; VObj [("id", VNum 2)]])).
Proof. vm_compute. repeat split. Qed.

(** The query of a caller that mentions the marker in a subquery gets a
    boolean, not its two records. *)
Lemma runQuery_marker_collapses_subquery :
  let t := Sample.embedded None in
  includes (toLowerCase (toString Sample.named_like_a_table))
           HAS_TABLE_SUBSTRING = true /\
  (exists d,
      exec (db t) (toString Sample.named_like_a_table)
      = Ok ([{| columns := ["id"; "name"];
                values := [[VNum 1; VStr "Alice"]; [VNum 2; VStr "Bob"]] |}],
            d)) /\
  fst (runQuery Sample.named_like_a_table Sample.reading t)
  = Resolved (VBool true).
Proof.
  intros t. split; [reflexivity|]. split; [eexists; reflexivity|].
  assert (Hq : callbacks_quiet t Sample.reading
                 (toString Sample.named_like_a_table))
    by (split; discriminate).
  assert (He : exec (db t) (toString Sample.named_like_a_table)
               = Ok ([{| columns := ["id"; "name"];
                         values := [[VNum 1; VStr "Alice"];
                                    [VNum 2; VStr "Bob"]] |}],
                     Sample.empty))
    by reflexivity.
  assert (Hm : includes (toLowerCase (toString Sample.named_like_a_table))
                        HAS_TABLE_SUBSTRING = true)
    by reflexivity.
  rewrite (@runQuery_marker_collapses _ _ t
             Sample.named_like_a_table Sample.reading _ _
             eq_refl eq_refl Hq eq_refl Hm He).
  reflexivity.
Defined.

(** Defining the model one twice. *)
Lemma model_idempotent_twice :
  let first := model "one" Sample.person VUndefined (Sample.embedded None) in
  (exists m, fst first = Resolved m /\
             map_get (definitions (snd first)) "one" = Some m /\
             model "one" (VObj []) VNull (snd first)
             = (Resolved m, snd first)) /\
  issued (calls (snd (model "one" (VObj []) VNull (snd first))))
  = issued (calls (snd first)).
Proof.
  intros first.
  destruct (@model_idempotent _ _ Sample.builders (Sample.embedded None) "one")
    as [_ Hsecond].
  destruct (@model_idempotent _ _ Sample.builders (snd first) "one")
    as [Hheld _].
  split.
  - eexists. split; [reflexivity|]. split; [reflexivity|].
    apply (Hsecond Sample.person VUndefined). vm_compute. reflexivity.
  - assert (Hg : map_get (definitions (snd first)) "one"
                 = Some (newModel "one" Sample.person VUndefined))
      by (vm_compute; reflexivity).
    rewrite (Hheld _ (VObj []) VNull Hg). vm_compute. reflexivity.
Defined.

(** Dropping the model one, on both backends, and a name never
    defined. *)
Lemma dropModel_spec_samples :
  (map_has (definitions Sample.with_one) "two" = false /\
   dropModel "two" Sample.with_one = (Resolved false, Sample.with_one)) /\
  (map_has (definitions Sample.with_one) "one" = true /\
   Sample.tables (db Sample.with_one) = ["one"] /\
   exists t',
     dropModel "one" Sample.with_one = (Resolved true, t') /\
     issued (calls t')
     = issued (calls Sample.with_one) ++ ["drop table if exists `one`"] /\
     Sample.tables (db t') = [] /\
     hasModel "one" t' = (Resolved (VBool false), t')) /\
  (isNative Sample.native_with_one = true /\
   exists t',
     dropModel "one" Sample.native_with_one = (Resolved true, t') /\
     hasModel "one" t' = (Resolved (VBool false), t')).
Proof.
  destruct (@dropModel_spec _ _ Sample.builders Sample.with_one "two")
    as [Hnever _].
  destruct (@dropModel_spec _ _ Sample.builders Sample.with_one "one")
    as [_ Hdrop].
  destruct (@dropModel_spec _ _ Sample.builders Sample.native_with_one "one")
    as [_ Hnative].
  split; [split; [reflexivity | apply Hnever; reflexivity]|].
  split.
  - split; [reflexivity|]. split; [reflexivity|].
    destruct (Hdrop eq_refl {| Sample.tables := []; Sample.modified := 0 |})
      as (t' & Hd & Hi & Hdb & _ & Hh).
    + split; [split; discriminate|].
      split; [reflexivity | eexists; reflexivity].
    + exists t'. rewrite Hdb. auto.
  - split; [reflexivity|].
    destruct (Hnative eq_refl {| Sample.tables := []; Sample.modified := 0 |})
      as (t' & Hd & _ & _ & _ & Hh).
    + split; [split; discriminate|]. eexists; reflexivity.
    + exists t'. auto.
Defined.

(* ================================================================= *)
(** * Further properties of the criteria helpers *)

Section WhereFacts.
Variable isObject : value -> bool.
Variable castValue : value -> value.

(** The clause that [buildWhere] makes of a tuple. *)
Lemma buildWhere_tuple (w : value) :
  isWhereTuple w = true ->
  exists clause,
    forall partial inner,
      buildWhere isObject castValue partial w inner = Ok (partial ++ [clause]).
Proof.
  intros Ht.
  destruct (isWhereTuple_array _ Ht) as [items ->].
  destruct (tuple_head _ Ht) as [c Hc].
  destruct items as [|x [|y [|z [|u r]]]]; try discriminate Ht;
    simpl in Hc; subst x; eexists; intros partial inner; reflexivity.
Qed.

(** [buildWhere] after the tuple branch. *)
Lemma buildWhere_not_tuple (partial : QueryBuilder) (w : value)
    (inner : bool) :
  w <> VUndefined ->
  isWhereTuple w = false ->
  buildWhere isObject castValue partial w inner
  = if negb inner && isWhereMultiple isObject w then
      match w with
      | VArr items =>
          fold_left
            (fun accumulator clause =>
               match accumulator with
               | Ok acc => buildWhere isObject castValue acc clause true
               | Throw e => Throw e
               end)
            items (Ok partial)
      | _ => Ok partial
      end
    else if isObject w then
      Ok (whereObject partial (util.mapObj w castValue))
    else
      invariant None ("invalid where clause type: '" ++ typeof w ++ "'")%string.
Proof.
  intros Hu Ht. destruct w; try congruence; simpl; try rewrite Ht;
    reflexivity.
Qed.

(** An element of a list adds its clauses, whatever the builder. *)
Lemma buildWhere_item (item : value) :
  isWhereTuple item || isObject item = true ->
  exists clauses,
    forall partial,
      buildWhere isObject castValue partial item true = Ok (partial ++ clauses).
Proof.
  intros Hi.
  destruct (isWhereTuple item) eqn:Ht.
  - destruct (buildWhere_tuple _ Ht) as [c Hc]. exists [c]. intros p. apply Hc.
  - simpl in Hi.
    destruct item; try (eexists; intros p; rewrite buildWhere_not_tuple
                          by (congruence || assumption);
                        simpl; rewrite Hi; reflexivity).
    exists []. intros p. simpl. now rewrite app_nil_r.
Qed.

Lemma buildWhere_items (items : list value) :
  forallb (fun item => isWhereTuple item || isObject item) items = true ->
  exists clauses,
    forall partial,
      fold_left
        (fun accumulator clause =>
           match accumulator with
           | Ok acc => buildWhere isObject castValue acc clause true
           | Throw e => Throw e
           end)
        items (Ok partial)
      = Ok (partial ++ clauses).
Proof.
  induction items as [|x r IH]; simpl; intros H.
  - exists []. intros p. now rewrite app_nil_r.
  - apply andb_true_iff in H as [Hx Hr].
    destruct (buildWhere_item _ Hx) as [cx Hcx].
    destruct (IH Hr) as [cr Hcr].
    exists (cx ++ cr). intros p. rewrite Hcx, Hcr. now rewrite app_assoc.
Qed.

(** Whether [buildWhere] returns or throws, and the clauses it adds,
    depend on the criteria alone. *)
Lemma buildWhere_uniform (w : value) (inner : bool) :
  (taken isObject inner w = true /\
   exists clauses, forall partial,
       buildWhere isObject castValue partial w inner = Ok (partial ++ clauses))
  \/
  (taken isObject inner w = false /\
   forall partial,
     buildWhere isObject castValue partial w inner
     = Throw (InvalidCriteriaError
                ("invalid where clause type: '" ++ typeof w ++ "'")%string)).
Proof.
  destruct (isWhereTuple w) eqn:Ht.
  - left. split.
    + unfold taken. rewrite Ht. now destruct w.
    + destruct (buildWhere_tuple _ Ht) as [c Hc]. exists [c]. intros p. apply Hc.
  - assert (Hcases : w = VUndefined \/ w <> VUndefined)
      by (destruct w; auto; right; discriminate).
    destruct Hcases as [-> | Hu].
    + left. split; [reflexivity|]. exists []. intros p. simpl.
      now rewrite app_nil_r.
    + assert (Htk : taken isObject inner w
                    = (negb inner && isWhereMultiple isObject w) || isObject w)
        by (unfold taken; rewrite Ht; destruct w; try reflexivity; congruence).
      rewrite Htk.
      destruct (negb inner && isWhereMultiple isObject w) eqn:Hm.
      * left. split; [reflexivity|].
        apply andb_true_iff in Hm as [Hi Hm'].
        destruct w; try discriminate Hm'.
        destruct (buildWhere_items _ Hm') as [cs Hcs].
        exists cs. intros p. rewrite buildWhere_not_tuple by assumption.
        rewrite Hi. simpl in *. rewrite Hm'. apply Hcs.
      * destruct (isObject w) eqn:Ho.
        -- left. split; [reflexivity|]. eexists. intros p.
           rewrite buildWhere_not_tuple by assumption. rewrite Hm, Ho.
           reflexivity.
        -- right. split; [reflexivity|]. intros p.
           rewrite buildWhere_not_tuple by assumption. now rewrite Hm, Ho.
Qed.


(** X1. At the top level, [buildWhere] returns a builder for a defined
    criteria exactly when [isValidWhere] holds of it. *)
Theorem buildWhere_accepts_valid (partial : QueryBuilder) (w : value) :
  w <> VUndefined ->
  (exists q, buildWhere isObject castValue partial w false = Ok q) <->
  isValidWhere isObject w = true.
Proof.
  intros Hu.
  assert (Htk : taken isObject false w = isValidWhere isObject w).
  { unfold taken, isValidWhere.
    destruct w; try congruence;
      match goal with
      | |- ?a || (negb false && ?m) || ?o = ?a || ?o || ?m =>
          destruct a, m, o; reflexivity
      end. }
  destruct (buildWhere_uniform w false) as [[Ht [cs Hcs]] | [Ht Hthrow]].
  - rewrite <- Htk, Ht. split; [reflexivity|].
    intros _. exists (partial ++ cs). apply Hcs.
  - rewrite <- Htk, Ht. split; [|discriminate].
    intros [q Hq]. rewrite Hthrow in Hq. discriminate.
Qed.

(** X2. [buildWhere] keeps the clauses of the builder it is given and
    adds clauses that depend on the criteria alone. *)
Theorem buildWhere_appends (partial q : QueryBuilder) (w : value)
    (inner : bool) :
  buildWhere isObject castValue partial w inner = Ok q ->
  exists clauses,
    q = partial ++ clauses /\
    forall other,
      buildWhere isObject castValue other w inner = Ok (other ++ clauses).
Proof.
  intros Hq.
  destruct (buildWhere_uniform w inner) as [[_ [cs Hcs]] | [_ Hthrow]].
  - exists cs. split; [|exact Hcs].
    rewrite Hcs in Hq. now injection Hq as <-.
  - rewrite Hthrow in Hq. discriminate.
Qed.

(** X3. When no string counts as an object, a tuple never passes the
    list check: the two classifications exclude each other. *)
Theorem tuple_is_no_list (w : value) :
  (forall s, isObject (VStr s) = false) ->
  isWhereTuple w = true ->
  isWhereMultiple isObject w = false.
Proof.
  intros Hs Ht.
  destruct (isWhereTuple_array _ Ht) as [items ->].
  destruct (tuple_head _ Ht) as [c Hc].
  destruct items as [|x r]; [discriminate Ht|].
  simpl in Hc. subst x. simpl. now rewrite Hs.
Qed.

(** X4. When objects count as objects and arrays do not, normalising a
    valid criteria gives a valid criteria that holds no tuple of two
    elements any more, at the top or in a list. *)
Theorem normalizeCriteria_normal_form (w : value) :
  (forall entries, isObject (VObj entries) = true) ->
  (forall items, isObject (VArr items) = false) ->
  isValidWhere isObject w = true ->
  isValidWhere isObject (normalizeCriteria isObject w) = true /\
  no_pairs (normalizeCriteria isObject w) = true.
Proof.
  intros Hobj Harr Hv.
  assert (Hlen : forall x, isWhereTuple x = true ->
                 (arr_length x =? 2) = false -> (arr_length x =? 3) = true).
  { intros x Hx H2. unfold isWhereTuple in Hx.
    apply andb_true_iff in Hx as [Hx _].
    apply andb_true_iff in Hx as [_ Hx].
    rewrite H2 in Hx. exact Hx. }
  assert (Hitem : forall x,
             isWhereTuple x || isObject x = true ->
             (isWhereTuple (normalizeCriteria isObject x)
              || isObject (normalizeCriteria isObject x) = true) /\
             (negb (isWhereTuple (normalizeCriteria isObject x))
              || (arr_length (normalizeCriteria isObject x) =? 3) = true)).
  { intros x Hx. rewrite normalizeCriteria_eq.
    destruct (isWhereTuple x) eqn:Ht.
    - destruct (tuple_head _ Ht) as [c ->].
      destruct (arr_length x =? 2) eqn:H2.
      + simpl. now rewrite Hobj.
      + rewrite Ht, (Hlen x Ht H2). simpl. auto.
    - simpl in Hx.
      destruct x; try (rewrite Harr in Hx; discriminate);
        simpl; rewrite ?Hx; auto. }
  rewrite normalizeCriteria_eq.
  destruct (isWhereTuple w) eqn:Ht.
  - destruct (tuple_head _ Ht) as [c ->].
    destruct (arr_length w =? 2) eqn:H2.
    + unfold isValidWhere. simpl. now rewrite Hobj.
    + split; [exact Hv|]. unfold no_pairs. rewrite Ht. now apply Hlen.
  - destruct (isWhereMultiple isObject w) eqn:Hm.
    + destruct w as [| | | | | | items |]; try discriminate Hm.
      pose proof (map_normalize_not_tuple isObject _ Ht) as Hnt.
      simpl in Hm. rewrite forallb_forall in Hm.
      split.
      * unfold isValidWhere. rewrite Hnt, Harr. simpl.
        apply forallb_forall. intros y Hy.
        apply in_map_iff in Hy as (x & <- & Hx).
        apply Hitem. now apply Hm.
      * unfold no_pairs. rewrite Hnt.
        apply forallb_forall. intros y Hy.
        apply in_map_iff in Hy as (x & <- & Hx).
        apply Hitem. now apply Hm.
    + split; [exact Hv|]. unfold no_pairs. rewrite Ht.
      destruct w; try reflexivity.
      unfold isValidWhere in Hv. rewrite Ht, Harr, Hm in Hv. discriminate.
Qed.

End WhereFacts.

(** X5. [buildOrder] keeps the clauses of the builder it is given and
    adds at most one, which depends on the order alone. *)
Theorem buildOrder_appends (order : value) :
  exists clauses,
    List.length clauses <= 1 /\
    forall partial, buildOrder partial order = partial ++ clauses.
Proof.
  unfold buildOrder, orderByRaw, orderBy1, orderBy2.
  destruct (util.isString order).
  - destruct (is_literal order "random"); eexists; split;
      try (intros partial; reflexivity); simpl; lia.
  - destruct (isArray order);
      [destruct (arr_length order =? 1);
       [|destruct (arr_length order =? 2)]|];
      try (eexists; split; [|intros partial; reflexivity]; simpl; lia);
      (exists []; split; [simpl; lia | intros partial; now rewrite app_nil_r]).
Qed.

(* ================================================================= *)
(** * Properties of the action of a statement *)

Lemma lower_ascii_space (c : ascii) :
  Ascii.eqb (lower_ascii c) " " = Ascii.eqb c " ".
Proof. destruct c as [[] [] [] [] [] [] [] []]; reflexivity. Qed.

Lemma lower_ascii_twice (c : ascii) :
  lower_ascii (lower_ascii c) = lower_ascii c.
Proof. destruct c as [[] [] [] [] [] [] [] []]; reflexivity. Qed.

Lemma toLowerCase_twice (s : string) :
  toLowerCase (toLowerCase s) = toLowerCase s.
Proof.
  induction s as [|c r IH]; simpl; [reflexivity|].
  now rewrite lower_ascii_twice, IH.
Qed.

Lemma split_first_lower (s : string) :
  split_first (toLowerCase s) = toLowerCase (split_first s).
Proof.
  induction s as [|c r IH]; simpl; [reflexivity|].
  rewrite lower_ascii_space.
  destruct (Ascii.eqb c " "); simpl; [reflexivity | now rewrite IH].
Qed.

Lemma split_first_word (word rest : string) :
  lacks " " word = true ->
  split_first (word ++ String " " rest) = word /\ split_first word = word.
Proof.
  induction word as [|c r IH]; simpl; intros H; [auto|].
  apply andb_true_iff in H as [Hc Hr].
  apply negb_true_iff in Hc. rewrite Hc.
  destruct (IH Hr) as [-> ->]. auto.
Qed.

(** Every code unit is in the list of them. *)
Lemma in_code_units (c : ascii) : In c code_units.
Proof.
  unfold code_units. apply in_map_iff. exists (nat_of_ascii c). split.
  - apply ascii_nat_embedding.
  - apply in_seq. pose proof (nat_ascii_bounded c). lia.
Qed.

(** The two cases of a letter have one lower case: checked on every pair
    of code units. *)
Lemma same_letter_checked :
  forallb
    (fun a =>
       forallb
         (fun b => implb (same_letter a b)
                         (Ascii.eqb (lower_ascii a) (lower_ascii b)))
         code_units)
    code_units = true.
Proof. vm_compute. reflexivity. Qed.

Lemma same_letter_lower (a b : ascii) :
  same_letter a b = true -> lower_ascii a = lower_ascii b.
Proof.
  intros H. pose proof same_letter_checked as Hall.
  rewrite forallb_forall in Hall. specialize (Hall a (in_code_units a)).
  rewrite forallb_forall in Hall. specialize (Hall b (in_code_units b)).
  rewrite H in Hall. simpl in Hall. now apply Ascii.eqb_eq.
Qed.

Lemma same_letters_lower (s t : string) :
  same_letters s t = true -> toLowerCase s = toLowerCase t.
Proof.
  revert t. induction s as [|a s IH]; intros [|b t]; simpl;
    try discriminate; [reflexivity|].
  intros H. apply andb_true_iff in H as [Ha Hs].
  now rewrite (same_letter_lower a b Ha), (IH t Hs).
Qed.

(** A code unit in lower case is the same letter and no capital: checked
    on every code unit. *)
Lemma lower_ascii_checked :
  forallb
    (fun a => same_letter a (lower_ascii a)
              && negb (capital (nat_of_ascii (lower_ascii a))))
    code_units = true.
Proof. vm_compute. reflexivity. Qed.

Lemma toLowerCase_letters (s : string) :
  same_letters s (toLowerCase s) = true /\
  uncapitalised (toLowerCase s) = true.
Proof.
  induction s as [|a s [IH1 IH2]]; simpl; [auto|].
  pose proof lower_ascii_checked as Hall.
  rewrite forallb_forall in Hall. specialize (Hall a (in_code_units a)).
  apply andb_true_iff in Hall as [Hsame Hsmall].
  now rewrite Hsame, Hsmall, IH1, IH2.
Qed.

(** X6. The action of a statement is its first word, the text before the
    first space, in small letters: it has the letters of the first word
    and no capital.  So two statements whose first words differ in case
    at most have the same action, whatever follows the first space. *)
Theorem getQueryAction_ignores_case (first second rest rest' : string) :
  lacks " " first = true ->
  lacks " " second = true ->
  same_letters first second = true ->
  same_letters first (getQueryAction (first ++ String " " rest)) = true /\
  uncapitalised (getQueryAction (first ++ String " " rest)) = true /\
  getQueryAction (first ++ String " " rest)
  = getQueryAction (second ++ String " " rest') /\
  getQueryAction first = getQueryAction (second ++ String " " rest').
Proof.
  intros Hf Hs Hsame. unfold getQueryAction.
  destruct (@split_first_word first rest Hf) as [H1 H2].
  destruct (@split_first_word second rest' Hs) as [H3 _].
  rewrite H1, H2, H3.
  destruct (toLowerCase_letters first) as [Hletters Hsmall].
  repeat split; try assumption; now apply same_letters_lower.
Qed.

(** [split(' ', 1)[0]] is the first piece of [split(' ')]. *)
Lemma split_first_split_on (s : string) :
  split_first s = hd EmptyString (split_on " " s).
Proof.
  induction s as [|c r IH]; simpl; [reflexivity|].
  destruct (Ascii.eqb c " "); [reflexivity|].
  rewrite IH. now destruct (split_on " " r).
Qed.

(* ================================================================= *)
(** * Further properties of [parseResponse] *)



Section FillKeys.
Variable name : nat -> string.
Variable cell : nat -> value.


End FillKeys.



(** X8. When no column is named [__proto__] and a column name occurs
    more than once, its last column gives the cell of the record; a row
    too short gives [undefined]. *)
Theorem parseLine_last_column_wins (cols : list string) (row : list value)
    (j : nat) :
  ~ In "__proto__" cols ->
  j < List.length cols ->
  (forall j', j < j' < List.length cols -> nth j' cols "" <> nth j cols "") ->
  exists entries,
    parseLine cols row = VObj entries /\
    obj_get entries (nth j cols "") = nth j row VUndefined.
Proof.
  intros Hproto Hj Hlast.
  apply parseLine_lookup; [exact Hj | now apply nth_not_in | exact Hlast].
Qed.

(* ================================================================= *)
(** * Properties of [findKey] *)

Lemma obj_get_in (o : list (string * value)) (k : string) (v : value) :
  NoDup (map fst o) -> In (k, v) o -> obj_get o k = v.
Proof.
  induction o as [|[k' v'] r IH]; simpl; intros Hnd Hin; [tauto|].
  inversion Hnd as [|? ? Hk' Hr]; subst.
  destruct Hin as [Heq | Hin].
  - injection Heq as -> ->. now rewrite String.eqb_refl.
  - destruct (String.eqb k' k) eqn:E; [|auto].
    apply String.eqb_eq in E. subst k'.
    exfalso. apply Hk'. apply in_map_iff. now exists (k, v).
Qed.

(** One turn of the loop on a column that does not stop it. *)
Lemma findKey_loop_pass (schema : list (string * value)) (name : string)
    (rest : list string) (found : string) :
  readable (obj_get schema name) = true ->
  increments (obj_get schema name) = false ->
  findKey_loop schema (name :: rest) found
  = findKey_loop schema rest
      (if keyed (obj_get schema name) then name else found).
Proof.
  intros Hr Hi. unfold increments in Hi.
  apply orb_false_iff in Hi as [H1 H2].
  simpl. rewrite H1. unfold keyed.
  destruct (obj_get schema name) as [| | b | z | s | f | items | entries];
    try discriminate Hr; simpl in *; rewrite ?H2; reflexivity.
Qed.

(** One turn of the loop on a column that stops it. *)
Lemma findKey_loop_stop (schema : list (string * value)) (name : string)
    (rest : list string) (found : string) :
  increments (obj_get schema name) = true ->
  findKey_loop schema (name :: rest) found
  = Some {| key := name; hasIncrements := true |}.
Proof.
  intros Hi. simpl. unfold increments in Hi.
  destruct (is_literal (obj_get schema name) "increments"); [reflexivity|].
  simpl in Hi.
  destruct (prop (obj_get schema name) "type") as [type|]; [|discriminate].
  now rewrite Hi.
Qed.

(** One turn of the loop on a column whose properties cannot be read. *)
Lemma findKey_loop_throw (schema : list (string * value)) (name : string)
    (rest : list string) (found : string) :
  readable (obj_get schema name) = false ->
  findKey_loop schema (name :: rest) found = None.
Proof.
  intros Hr. simpl.
  destruct (obj_get schema name); try discriminate Hr; reflexivity.
Qed.

(** The loop over columns that neither stop it nor are keys. *)
Lemma findKey_loop_plain (schema : list (string * value))
    (names : list string) (found : string) :
  Forall (fun n => readable (obj_get schema n) = true /\
                   increments (obj_get schema n) = false /\
                   keyed (obj_get schema n) = false) names ->
  findKey_loop schema names found
  = Some {| key := found; hasIncrements := false |}.
Proof.
  induction 1 as [|n names (Hr & Hi & Hk) _ IH]; [reflexivity|].
  rewrite findKey_loop_pass by assumption. now rewrite Hk.
Qed.

(** The loop up to the first column that stops it. *)
Lemma findKey_loop_first_increments (schema : list (string * value))
    (before after : list string) (name found : string) :
  Forall (fun n => readable (obj_get schema n) = true /\
                   increments (obj_get schema n) = false) before ->
  increments (obj_get schema name) = true ->
  findKey_loop schema (before ++ name :: after) found
  = Some {| key := name; hasIncrements := true |}.
Proof.
  intros Hb Hi. revert found.
  induction Hb as [|n before [Hr Hn] _ IH]; intros found; simpl app.
  - now apply findKey_loop_stop.
  - rewrite findKey_loop_pass by assumption. apply IH.
Qed.

(** The loop up to the last column that is a key. *)
Lemma findKey_loop_last_keyed (schema : list (string * value))
    (before after : list string) (name found : string) :
  Forall (fun n => readable (obj_get schema n) = true /\
                   increments (obj_get schema n) = false) before ->
  readable (obj_get schema name) = true ->
  increments (obj_get schema name) = false ->
  keyed (obj_get schema name) = true ->
  Forall (fun n => readable (obj_get schema n) = true /\
                   increments (obj_get schema n) = false /\
                   keyed (obj_get schema n) = false) after ->
  findKey_loop schema (before ++ name :: after) found
  = Some {| key := name; hasIncrements := false |}.
Proof.
  intros Hb Hr Hi Hk Ha. revert found.
  induction Hb as [|n before [Hrn Hin] _ IH]; intros found; simpl app.
  - rewrite findKey_loop_pass by assumption. rewrite Hk.
    now apply findKey_loop_plain.
  - rewrite findKey_loop_pass by assumption. apply IH.
Qed.

(** The loop up to a column whose properties cannot be read. *)
Lemma findKey_loop_unreadable (schema : list (string * value))
    (before after : list string) (name found : string) :
  Forall (fun n => readable (obj_get schema n) = true /\
                   increments (obj_get schema n) = false) before ->
  readable (obj_get schema name) = false ->
  findKey_loop schema (before ++ name :: after) found = None.
Proof.
  intros Hb Hr. revert found.
  induction Hb as [|n before [Hrn Hin] _ IH]; intros found; simpl app.
  - now apply findKey_loop_throw.
  - rewrite findKey_loop_pass by assumption. apply IH.
Qed.

(** What the loop returns, when it returns. *)
Lemma findKey_loop_sound (schema : list (string * value))
    (names : list string) (found : string) (info : KeyInfo) :
  findKey_loop schema names found = Some info ->
  (key info = found \/ In (key info) names) /\
  (hasIncrements info = true ->
   In (key info) names /\ increments (obj_get schema (key info)) = true) /\
  (hasIncrements info = false ->
   Forall (fun n => increments (obj_get schema n) = false) names).
Proof.
  revert found. induction names as [|n names IH]; intros found H.
  - injection H as <-. simpl. repeat split; auto; discriminate.
  - destruct (readable (obj_get schema n)) eqn:Hr.
    + destruct (increments (obj_get schema n)) eqn:Hi.
      * rewrite findKey_loop_stop in H by assumption. injection H as <-.
        simpl. repeat split; auto; discriminate.
      * rewrite findKey_loop_pass in H by assumption.
        apply IH in H as (H1 & H2 & H3). repeat split.
        -- destruct H1 as [H1 | H1]; [|right; now right].
           rewrite H1. destruct (keyed _); [right; now left | now left].
        -- right. now apply H2.
        -- now apply H2.
        -- intros Hf. constructor; auto.
    + rewrite findKey_loop_throw in H by assumption. discriminate.
Qed.

(** The columns of a schema with distinct names, seen through their
    names. *)
Lemma Forall_columns (schema : list (string * value)) (P : value -> Prop)
    (part : list (string * value)) :
  NoDup (map fst schema) ->
  incl part schema ->
  Forall (fun kv => P (snd kv)) part ->
  Forall (fun n => P (obj_get schema n)) (map fst part).
Proof.
  intros Hnd Hincl Hp. induction Hp as [|[k v] r Hkv _ IH]; simpl.
  - constructor.
  - constructor.
    + rewrite (@obj_get_in schema k v Hnd); [exact Hkv|].
      apply Hincl. now left.
    + apply IH. intros x Hx. apply Hincl. now right.
Qed.

Lemma findKey_loop_total (schema : list (string * value))
    (names : list string) (found : string) :
  Forall (fun n => readable (obj_get schema n) = true) names ->
  exists info, findKey_loop schema names found = Some info.
Proof.
  intros H. revert found.
  induction H as [|n names Hr _ IH]; intros found.
  - eexists. reflexivity.
  - destruct (increments (obj_get schema n)) eqn:Hi.
    + rewrite findKey_loop_stop by assumption. eauto.
    + rewrite findKey_loop_pass by assumption. apply IH.
Qed.

Section FindKeyFacts.
Variable before after : list (string * value).
Variable name : string.
Variable props : value.

Hypothesis distinct : NoDup (map fst (before ++ (name, props) :: after)).

Lemma schema_names : map fst (before ++ (name, props) :: after) = map fst before ++ name :: map fst after.
Proof. now rewrite map_app. Qed.

Lemma schema_props : obj_get (before ++ (name, props) :: after) name = props.
Proof.
  apply obj_get_in; [exact distinct|].
  apply in_or_app. right. now left.
Qed.

Lemma incl_before : incl before (before ++ (name, props) :: after).
Proof. intros x Hx. apply in_or_app. now left. Qed.

Lemma incl_after : incl after (before ++ (name, props) :: after).
Proof. intros x Hx. apply in_or_app. right. now right. Qed.

(** X9. The first column that is 'increments', or a descriptor of that
    type, is the key and sets [hasIncrements], whatever primary or unique
    columns stand before it. *)
Theorem findKey_first_increments :
  Forall (fun kv => readable (snd kv) = true /\
                    increments (snd kv) = false) before ->
  increments props = true ->
  findKey (before ++ (name, props) :: after) = Some {| key := name; hasIncrements := true |}.
Proof.
  intros Hb Hi. unfold findKey. rewrite schema_names.
  apply findKey_loop_first_increments.
  - apply (@Forall_columns (before ++ (name, props) :: after)
             (fun p => readable p = true /\ increments p = false));
      [exact distinct | exact incl_before | exact Hb].
  - now rewrite schema_props.
Qed.

(** X10. Without an increments column, the last column that is primary
    or unique is the key: a later one replaces an earlier one. *)
Theorem findKey_last_key_wins :
  Forall (fun kv => readable (snd kv) = true /\
                    increments (snd kv) = false) before ->
  readable props = true ->
  increments props = false ->
  keyed props = true ->
  Forall (fun kv => readable (snd kv) = true /\
                    increments (snd kv) = false /\
                    keyed (snd kv) = false) after ->
  findKey (before ++ (name, props) :: after) = Some {| key := name; hasIncrements := false |}.
Proof.
  intros Hb Hr Hi Hk Ha. unfold findKey. rewrite schema_names.
  apply findKey_loop_last_keyed; rewrite ?schema_props; auto.
  - apply (@Forall_columns (before ++ (name, props) :: after)
             (fun p => readable p = true /\ increments p = false));
      [exact distinct | exact incl_before | exact Hb].
  - apply (@Forall_columns (before ++ (name, props) :: after)
             (fun p => readable p = true /\ increments p = false /\
                       keyed p = false));
      [exact distinct | exact incl_after | exact Ha].
Qed.

(** X11. A column that is [undefined] or [null] makes [findKey] throw
    when no increments column stands before it. *)
Theorem findKey_unreadable_column :
  Forall (fun kv => readable (snd kv) = true /\
                    increments (snd kv) = false) before ->
  readable props = false ->
  findKey (before ++ (name, props) :: after) = None.
Proof.
  intros Hb Hr. unfold findKey. rewrite schema_names.
  apply findKey_loop_unreadable.
  - apply (@Forall_columns (before ++ (name, props) :: after)
             (fun p => readable p = true /\ increments p = false));
      [exact distinct | exact incl_before | exact Hb].
  - now rewrite schema_props.
Qed.

End FindKeyFacts.

(** X12. On a schema whose columns can all be read, [findKey] returns;
    the key it returns is empty or the name of a column; when it reports
    [hasIncrements] the key is an increments column, and when it does not
    no column is one. *)
Theorem findKey_sound (schema : list (string * value)) :
  NoDup (map fst schema) ->
  Forall (fun kv => readable (snd kv) = true) schema ->
  exists info,
    findKey schema = Some info /\
    (key info = "" \/ In (key info) (map fst schema)) /\
    (hasIncrements info = true ->
     exists props, In (key info, props) schema /\ increments props = true) /\
    (hasIncrements info = false ->
     Forall (fun kv => increments (snd kv) = false) schema).
Proof.
  intros Hnd Hr.
  assert (Hget : forall kv, In kv schema -> obj_get schema (fst kv) = snd kv).
  { intros [k v] Hkv. now apply obj_get_in. }
  destruct (@findKey_loop_total schema (map fst schema) "") as [info Hinfo].
  { apply Forall_forall. intros n Hn.
    apply in_map_iff in Hn as (kv & <- & Hkv).
    rewrite (Hget kv Hkv). rewrite Forall_forall in Hr. now apply Hr. }
  exists info. split; [exact Hinfo|].
  apply findKey_loop_sound in Hinfo as (H1 & H2 & H3).
  split; [exact H1|]. split.
  - intros Ht. destruct (H2 Ht) as [Hin Hi].
    apply in_map_iff in Hin as ([k v] & Hk & Hkv). simpl in Hk. subst k.
    exists v. split; [exact Hkv|].
    pose proof (Hget _ Hkv) as Hg. simpl in Hg. now rewrite Hg in Hi.
  - intros Hf. specialize (H3 Hf). apply Forall_forall. intros kv Hkv.
    rewrite Forall_forall in H3. rewrite <- (Hget kv Hkv).
    apply H3. now apply in_map.
Qed.

(* ================================================================= *)
(** * Properties of locations *)

Lemma split_on_word (sep : ascii) (word rest : string) :
  lacks sep word = true ->
  split_on sep word = [word] /\
  split_on sep (word ++ String sep rest) = word :: split_on sep rest.
Proof.
  induction word as [|c r IH]; simpl; intros H.
  - rewrite Ascii.eqb_refl. auto.
  - apply andb_true_iff in H as [Hc Hr].
    apply negb_true_iff in Hc. rewrite Hc.
    destruct (IH Hr) as [-> ->]. auto.
Qed.

Lemma location_parts_pieces_aux (table column : string) :
  lacks "." table = true ->
  lacks "." column = true ->
  location_parts table = (table, None) /\
  location_parts (table ++ String "." column) = (table, Some column) /\
  location_parts (table ++ ".") = (table, Some "").
Proof.
  intros Ht Hc. unfold location_parts.
  destruct (@split_on_word "." table column Ht) as [H1 H2].
  destruct (@split_on_word "." table "" Ht) as [_ H3].
  destruct (@split_on_word "." column "" Hc) as [H4 _].
  rewrite H1, H2, H3, H4. repeat split.
Qed.

(** X13. A location without a dot names a table and no column; with a
    dot, the table and the column are the first two pieces, and what
    follows a second dot is dropped. *)
Theorem location_parts_pieces (table column rest : string) :
  lacks "." table = true ->
  lacks "." column = true ->
  location_parts table = (table, None) /\
  location_parts (table ++ String "." column) = (table, Some column) /\
  location_parts (table ++ String "." (column ++ String "." rest))
  = (table, Some column).
Proof.
  intros Ht Hc. unfold location_parts.
  destruct (@split_on_word "." table column Ht) as [H1 H2].
  destruct (@split_on_word "." table (column ++ String "." rest) Ht)
    as [_ H3].
  destruct (@split_on_word "." column rest Hc) as [H4 H5].
  rewrite H1, H2, H3, H4, H5. repeat split.
Qed.

(* ================================================================= *)
(** * Further properties of the registry *)

Section RegistryMore.
Context {DB : Type} {driver : Driver DB} {builders : Builders}.

Lemma map_get_delete (V : Type) (m : list (string * V)) (k : string) :
  map_get (map_delete m k) k = None.
Proof.
  induction m as [|[k' v'] r IH]; simpl; auto.
  destruct (String.eqb k' k) eqn:E; simpl; auto. now rewrite E.
Qed.

Lemma map_get_delete_other (V : Type) (m : list (string * V))
    (k k' : string) :
  k <> k' -> map_get (map_delete m k) k' = map_get m k'.
Proof.
  intros Hk. induction m as [|[k0 v0] r IH]; simpl; auto.
  destruct (String.eqb k0 k) eqn:E; simpl.
  - apply String.eqb_eq in E. subst k0.
    apply String.eqb_neq in Hk. now rewrite Hk.
  - now rewrite IH.
Qed.

Lemma map_delete_absent (V : Type) (m : list (string * V)) (k : string) :
  map_get m k = None -> map_delete m k = m.
Proof.
  induction m as [|[k' v'] r IH]; simpl; auto.
  destruct (String.eqb k' k); [discriminate|].
  intros H. now rewrite IH.
Qed.

Lemma map_delete_set (V : Type) (m : list (string * V)) (k : string)
    (v : V) :
  map_get m k = None -> map_delete (map_set m k v) k = m.
Proof.
  induction m as [|[k' v'] r IH]; simpl.
  - now rewrite String.eqb_refl.
  - destruct (String.eqb k' k) eqn:E; [discriminate|].
    intros H. simpl. rewrite E. now rewrite IH.
Qed.

Lemma keys_map_set (V : Type) (m : list (string * V)) (k : string) (v : V) :
  map fst (map_set m k v)
  = match map_get m k with
    | Some _ => map fst m
    | None => map fst m ++ [k]
    end.
Proof.
  induction m as [|[k' v'] r IH]; simpl; auto.
  destruct (String.eqb k' k) eqn:E; simpl; auto.
  rewrite IH. now destruct (map_get r k).
Qed.

Lemma keys_map_delete (V : Type) (m : list (string * V)) (k : string) :
  map fst (map_delete m k)
  = filter (fun k' => negb (String.eqb k' k)) (map fst m).
Proof.
  induction m as [|[k' v'] r IH]; simpl; auto.
  destruct (String.eqb k' k); simpl; now rewrite IH.
Qed.

Lemma map_get_keys (V : Type) (m : list (string * V)) (k : string) :
  map_get m k = None -> ~ In k (map fst m).
Proof.
  induction m as [|[k' v'] r IH]; simpl; [tauto|].
  destruct (String.eqb k' k) eqn:E; [discriminate|].
  apply String.eqb_neq in E. intros H [H' | H']; [congruence | now apply IH].
Qed.

(** What follows the registration of a new model keeps the map. *)
Lemma keeps_model_statements (n : string) (m : Model) (opts : value) :
  keeps_definitions (DB := DB)
    (bind (lift (validate opts))
       (fun validated =>
          bind (gets isNative)
            (fun native =>
               bind
                 (if native then
                    bind (await (hasTable n))
                      (fun found =>
                         if negb (truthy found)
                         then bind (await (createTable n m validated))
                                   (fun _ => ret tt)
                         else ret tt)
                  else
                    bind (runQuery (hasTable n)
                            {| needResponse := true; model_ := None |})
                      (fun found =>
                         if negb (truthy found)
                         then bind (runQuery (createTable n m validated)
                                      {| needResponse := false;
                                         model_ := None |})
                                   (fun _ => ret tt)
                         else ret tt))
                 (fun _ =>
                    bind (detached (createTimestampTrigger m))
                      (fun _ => ret m))))).
Proof.
  repeat first
    [ apply keeps_runQuery | apply keeps_ret | apply keeps_await
    | apply keeps_lift
    | apply keeps_bind; [|intros ?]
    | apply keeps_detached; apply keeps_createTimestampTrigger
    | match goal with
      | |- keeps_definitions (if ?b then _ else _) => destruct b
      end ];
    intros t0; reflexivity.
Qed.

(** The map of models after [model], whatever its outcome. *)
Lemma model_definitions (t : Trilogy DB) (n : string) (sch opts : value) :
  definitions (snd (model n sch opts t))
  = match map_get (definitions t) n with
    | Some _ => definitions t
    | None =>
        match construct n sch opts with
        | Ok m => map_set (definitions t) n m
        | Throw _ => definitions t
        end
    end.
Proof.
  unfold model, bind at 1, gets.
  destruct (map_get (definitions t) n) as [existing|]; [reflexivity|].
  unfold bind at 1, lift.
  destruct (construct n sch opts) as [m|e]; [|reflexivity].
  unfold bind at 1, modify.
  now rewrite (keeps_model_statements n m opts).
Qed.

(** [model] on a new name whose constructor throws. *)
Lemma model_construct_throws (t : Trilogy DB) (n : string)
    (sch opts : value) (e : Error) :
  map_get (definitions t) n = None ->
  construct n sch opts = Throw e ->
  model n sch opts t = (Rejected e, t).
Proof.
  intros Hnew Hc. unfold model, bind at 1, gets. rewrite Hnew.
  unfold bind at 1, lift. now rewrite Hc.
Qed.

(** [model] on a name that is defined. *)
Lemma model_held (t : Trilogy DB) (n : string) (sch opts : value)
    (m : Model) :
  map_get (definitions t) n = Some m ->
  model n sch opts t = (Resolved m, t).
Proof. intros Hg. unfold model, bind, gets. now rewrite Hg. Qed.

(** The map of models after [dropModel], whatever its outcome. *)
Lemma dropModel_definitions (t : Trilogy DB) (n : string) :
  definitions (snd (dropModel n t))
  = match fst (dropModel n t) with
    | Resolved true => map_delete (definitions t) n
    | _ => definitions t
    end.
Proof.
  unfold dropModel, bind, gets, modify, ret.
  destruct (map_has (definitions t) n); simpl; [|reflexivity].
  pose proof (keeps_runQuery (dropTableIfExists n)
                {| needResponse := true; model_ := None |} t) as Hk.
  destruct (runQuery (dropTableIfExists n)
              {| needResponse := true; model_ := None |} t)
    as [[r | e |] t1]; simpl in *; congruence.
Qed.

(** [dropModel] on a defined name whose statement goes through. *)
Lemma dropModel_resolves (t : Trilogy DB) (n : string) (d : DB) :
  map_has (definitions t) n = true ->
  accepted t (dropTableIfExists n) d ->
  exists t',
    dropModel n t = (Resolved true, t') /\
    definitions t' = map_delete (definitions t) n /\
    db t' = d.
Proof.
  intros Hh [Hq Hb].
  unfold dropModel, bind at 1, gets. rewrite Hh. simpl.
  destruct (isNative t) eqn:Hn.
  - destruct Hb as [res Hb]. unfold bind at 1.
    rewrite (@runQuery_native_response _ _ t (dropTableIfExists n) _ res d
               Hq Hn eq_refl Hb).
    eexists. split; [reflexivity|]. simpl. auto.
  - destruct Hb as [Hp [contents Hb]]. unfold bind at 1.
    rewrite (@runQuery_embedded_exec _ _ t (dropTableIfExists n) _ contents d
               Hq Hn Hp eq_refl Hb).
    eexists. split; [reflexivity|]. simpl. auto.
Qed.


Ltac unfold_router :=
  unfold bind, gets, acquire, db_exec, db_run, db_getRowsModified, await,
    writeDatabase, release, modify, ret, throw.

(** X14. On the native driver a query run without [needResponse] gives a
    count: a number as it is, the length of an array of rows, and 0 for a
    falsy result; the pool is not asked for a handle. *)
Theorem runQuery_native_counts (t : Trilogy DB) (query : Query)
    (options : QueryOptions) (res : value) (d : DB) :
  isNative t = true ->
  callbacks_quiet t options (toString query) ->
  needResponse options = false ->
  awaitQuery (db t) query = Ok (res, d) ->
  exists response,
    runQuery query options t
    = (Resolved response,
       finished t [CNative (toString query)] d (storage t)) /\
    (forall n, res = VNum n -> response = VNum n) /\
    (forall rows, res = VArr rows ->
                  response = VNum (Z.of_nat (List.length rows))) /\
    (util.isNumber res = false -> truthy res = false -> response = VNum 0).
Proof.
  intros Hn [Hv Hh] Hr He.
  unfold runQuery. rewrite verbose_quiet, hook_quiet by assumption.
  unfold_router. rewrite Hn, Hr. simpl. rewrite He.
  exists (if util.isNumber res then res
          else if truthy res then length_of res else VNum 0).
  split.
  - destruct (util.isNumber res); f_equal; apply finished_eq; simpl; auto.
  - repeat split.
    + intros n ->. reflexivity.
    + intros rows ->. reflexivity.
    + intros Hnum Hf. now rewrite Hnum, Hf.
Qed.

(** X15. [model] on a new name builds the model first and registers it
    before it issues any statement.  When the constructor throws, the
    call is rejected with that error and the registry is as before: the
    name is not defined and nothing was issued.  When the constructor
    returns, the name is defined afterwards whatever the outcome of the
    call, and a further call returns that model and leaves the registry
    as it is. *)
Theorem model_registers_first (t : Trilogy DB) (n : string)
    (sch opts : value) :
  map_get (definitions t) n = None ->
  (forall e,
      construct n sch opts = Throw e ->
      model n sch opts t = (Rejected e, t)) /\
  (forall m,
      construct n sch opts = Ok m ->
      map_get (definitions (snd (model n sch opts t))) n = Some m /\
      forall sch' opts',
        model n sch' opts' (snd (model n sch opts t))
        = (Resolved m, snd (model n sch opts t))).
Proof.
  intros Hnew. split.
  - intros e Hc. now apply model_construct_throws.
  - intros m Hc.
    assert (Hdef : map_get (definitions (snd (model n sch opts t))) n
                   = Some m).
    { rewrite model_definitions, Hnew, Hc. apply map_get_set. }
    split; [exact Hdef|].
    intros sch' opts'. now apply model_held.
Qed.


(** X17. [dropModel] removes the definition only when it resolves to
    true: when its statement is rejected or waits for the pool, and when
    the name is not defined, the map of models is as before. *)
Theorem dropModel_keeps_on_failure (t : Trilogy DB) (n : string) :
  definitions (snd (dropModel n t))
  = match fst (dropModel n t) with
    | Resolved true => map_delete (definitions t) n
    | _ => definitions t
    end.
Proof. apply dropModel_definitions. Qed.

(** X18. [getModel] after a [model] whose constructor returned gives the
    model of that name, whatever the outcome of the statements of
    [model]: the model held before, or the one just built.  After a
    [dropModel] that resolved to true it throws on the name dropped,
    with the message that names it, and answers as before on the other
    names. *)
Theorem getModel_follows_registry (t : Trilogy DB) (n : string) :
  (forall sch opts held,
      map_get (definitions t) n = Some held ->
      getModel n (snd (model n sch opts t)) = Ok held) /\
  (forall sch opts m,
      map_get (definitions t) n = None ->
      construct n sch opts = Ok m ->
      getModel n (snd (model n sch opts t)) = Ok m) /\
  (forall t',
      dropModel n t = (Resolved true, t') ->
      (exists e,
          getModel n t' = Throw e /\
          message_of e = ("no model defined by the name '" ++ n ++ "'")%string)
      /\
      forall other, other <> n -> getModel other t' = getModel other t).
Proof.
  split; [|split].
  - intros sch opts held Hg. unfold getModel.
    rewrite model_definitions, Hg. cbv iota. now rewrite Hg.
  - intros sch opts m Hg Hc. unfold getModel.
    rewrite model_definitions, Hg, Hc. cbv iota. now rewrite map_get_set.
  - intros t' Hd.
    pose proof (dropModel_definitions t n) as Hdefs.
    rewrite Hd in Hdefs. simpl in Hdefs.
    unfold getModel. rewrite Hdefs. split.
    + rewrite map_get_delete. eexists. split; reflexivity.
    + intros other Ho. rewrite map_get_delete_other by congruence.
      reflexivity.
Qed.

(** X19. The getter [models] lists the names in the order of their first
    definition: [model] on a new name adds it at the end when the
    constructor returns and changes nothing when it throws, on a defined
    name it changes nothing, and a [dropModel] that resolved to true
    takes the name out; names stay distinct. *)
Theorem models_order (t : Trilogy DB) (n : string) (sch opts : value) :
  models (snd (model n sch opts t))
  = match map_get (definitions t) n with
    | Some _ => models t
    | None =>
        match construct n sch opts with
        | Ok _ => models t ++ [n]
        | Throw _ => models t
        end
    end /\
  (forall t',
      dropModel n t = (Resolved true, t') ->
      models t' = filter (fun k => negb (String.eqb k n)) (models t)) /\
  (NoDup (models t) ->
   NoDup (models (snd (model n sch opts t))) /\
   NoDup (models (snd (dropModel n t)))).
Proof.
  assert (Hm : models (snd (model n sch opts t))
               = match map_get (definitions t) n with
                 | Some _ => models t
                 | None =>
                     match construct n sch opts with
                     | Ok _ => models t ++ [n]
                     | Throw _ => models t
                     end
                 end).
  { unfold models. rewrite model_definitions.
    destruct (map_get (definitions t) n) eqn:Hg; [reflexivity|].
    destruct (construct n sch opts); [|reflexivity].
    now rewrite keys_map_set, Hg. }
  split; [exact Hm|]. split.
  - intros t' Hd.
    pose proof (dropModel_definitions t n) as Hdefs.
    rewrite Hd in Hdefs. simpl in Hdefs.
    unfold models. now rewrite Hdefs, keys_map_delete.
  - intros Hnd. split.
    + rewrite Hm. destruct (map_get (definitions t) n) eqn:Hg; [exact Hnd|].
      destruct (construct n sch opts); [|exact Hnd].
      apply NoDup_app; [exact Hnd | repeat constructor; simpl; tauto |].
      intros x Hx [<- | []]. exact (map_get_keys _ _ Hg Hx).
    + unfold models. rewrite dropModel_definitions.
      destruct (fst (dropModel n t)) as [[] | |]; try exact Hnd.
      rewrite keys_map_delete. now apply NoDup_filter.
Qed.

(** X20. Defining a new model, whose constructor returns, and dropping
    it gives back the map of models there was, when the drop statement
    goes through. *)
Theorem model_then_dropModel (t : Trilogy DB) (n : string)
    (sch opts : value) (m : Model) (d : DB) :
  map_get (definitions t) n = None ->
  construct n sch opts = Ok m ->
  accepted (snd (model n sch opts t)) (dropTableIfExists n) d ->
  exists t',
    dropModel n (snd (model n sch opts t)) = (Resolved true, t') /\
    definitions t' = definitions t /\
    db t' = d.
Proof.
  intros Hnew Hc Hacc.
  destruct (@dropModel_resolves (snd (model n sch opts t)) n d)
    as (t' & Hd & Hdefs & Hdb); [|exact Hacc|].
  - apply map_has_get. rewrite model_definitions, Hnew, Hc.
    eexists. apply map_get_set.
  - exists t'. split; [exact Hd|]. split; [|exact Hdb].
    rewrite Hdefs, model_definitions, Hnew, Hc.
    now apply map_delete_set.
Qed.

(** X21. [find] reads the model off the first piece of its location and
    goes to the whole table when the column is absent or empty; [get]
    passes an absent column on as [undefined]; [remove] takes its whole
    location as the name of the model. *)
Theorem location_dispatch (t : Trilogy DB) (table column : string)
    (criteria options : value) :
  lacks "." table = true ->
  lacks "." column = true ->
  (forall m,
      map_get (definitions t) table = Some m ->
      find table criteria options t = Ok (m, CallFind criteria options) /\
      find (table ++ ".") criteria options t
      = Ok (m, CallFind criteria options) /\
      (column <> "" ->
       find (table ++ String "." column) criteria options t
       = Ok (m, CallFindIn column criteria options)) /\
      get table criteria options t
      = Ok (m, CallGet VUndefined criteria options)) /\
  (map_get (definitions t) table = None ->
   find (table ++ String "." column) criteria options t
   = Throw (InvalidCriteriaError
              ("no model defined by the name '" ++ table ++ "'")%string)) /\
  (map_get (definitions t) (table ++ String "." column) = None ->
   remove (table ++ String "." column) criteria t
   = Throw (InvalidCriteriaError
              ("no model defined by the name '"
                 ++ (table ++ String "." column) ++ "'")%string)).
Proof.
  intros Ht Hc.
  destruct (@location_parts_pieces_aux table column Ht Hc) as (H1 & H2 & H3).
  split; [|split].
  - intros m Hm. unfold find, get, getModel.
    rewrite H1, H2, H3, Hm. simpl. repeat split.
    intros Hne. destruct column; [congruence | reflexivity].
  - intros Hm. unfold find, getModel. now rewrite H2, Hm.
  - intros Hm. unfold remove, getModel. now rewrite Hm.
Qed.

End RegistryMore.

(* ================================================================= *)
(** * The further properties on concrete inputs *)

(** A list of a tuple and an object is valid, and is taken. *)
Lemma buildWhere_accepts_adults :
  Sample.adults <> VUndefined /\
  isValidWhere util.isObject Sample.adults = true /\
  exists q, buildWhere util.isObject Sample.castValue [] Sample.adults false
            = Ok q.
Proof.
  split; [discriminate|]. split; [reflexivity|].
  apply (@buildWhere_accepts_valid util.isObject Sample.castValue []
           Sample.adults); [discriminate | reflexivity].
Defined.

(** The clauses of that list come after the clause already there. *)
Lemma buildWhere_appends_adults :
  let partial := [OrderBy1 (VStr "name")] in
  buildWhere util.isObject Sample.castValue partial Sample.adults false
  = Ok [OrderBy1 (VStr "name");
        Where3 (VStr "age") (VStr ">") (VNum 30);
        WhereObject (VObj [("active", VNum 1)])] /\
  exists clauses,
    [OrderBy1 (VStr "name");
     Where3 (VStr "age") (VStr ">") (VNum 30);
     WhereObject (VObj [("active", VNum 1)])] = partial ++ clauses /\
    forall other,
      buildWhere util.isObject Sample.castValue other Sample.adults false
      = Ok (other ++ clauses).
Proof.
  intros partial. split; [reflexivity|].
  apply (@buildWhere_appends util.isObject Sample.castValue partial _
           Sample.adults false).
  reflexivity.
Defined.

(** The tuple ('age', '>', 30) is no list. *)
Lemma tuple_is_no_list_age :
  (forall s, util.isObject (VStr s) = false) /\
  isWhereTuple (VArr [VStr "age"; VStr ">"; VNum 30]) = true /\
  isWhereMultiple util.isObject (VArr [VStr "age"; VStr ">"; VNum 30]) = false.
Proof.
  split; [reflexivity|]. split; [reflexivity|].
  apply tuple_is_no_list; reflexivity.
Defined.

(** The normal form of a list with a tuple of two elements. *)
Lemma normalizeCriteria_normal_form_list :
  let w := VArr [VArr [VStr "name"; VStr "Alice"];
                 VArr [VStr "age"; VStr ">"; VNum 30]] in
  isValidWhere util.isObject w = true /\
  no_pairs w = false /\
  isValidWhere util.isObject (normalizeCriteria util.isObject w) = true /\
  no_pairs (normalizeCriteria util.isObject w) = true.
Proof.
  intros w. split; [reflexivity|]. split; [reflexivity|].
  apply normalizeCriteria_normal_form; reflexivity.
Defined.

(** An insert written in capitals has the action of one written in
    small letters, which is insert. *)
Lemma getQueryAction_ignores_case_insert :
  (lacks " " "INSERT" = true /\ lacks " " "insert" = true /\
   same_letters "INSERT" "insert" = true) /\
  getQueryAction "INSERT into users (name) values ('Alice')"
  = getQueryAction "insert into users default values" /\
  getQueryAction "INSERT" = getQueryAction "insert into users default values" /\
  getQueryAction "insert into users default values" = "insert".
Proof.
  split; [repeat split|].
  destruct (@getQueryAction_ignores_case "INSERT" "insert"
              "into users (name) values ('Alice')"
              "into users default values" eq_refl eq_refl eq_refl)
    as (_ & _ & Hlong & Hshort).
  split; [exact Hlong|]. split; [exact Hshort | reflexivity].
Defined.


(** The last column named id gives the cell; the short row gives
    [undefined]. *)
Lemma parseLine_last_column_wins_joined :
  (2 < List.length (columns Sample.joined) /\
   exists entries,
     parseLine (columns Sample.joined) [VNum 1; VStr "Alice"; VNum 7]
     = VObj entries /\
     obj_get entries "id" = VNum 7) /\
  exists entries,
    parseLine (columns Sample.joined) [VNum 2; VStr "Bob"] = VObj entries /\
    obj_get entries "id" = VUndefined.
Proof.
  assert (Hproto : ~ In "__proto__" (columns Sample.joined))
    by (simpl; intuition discriminate).
  assert (Hj : 2 < List.length (columns Sample.joined)) by (simpl; lia).
  assert (Hlast : forall j', 2 < j' < List.length (columns Sample.joined) ->
                             nth j' (columns Sample.joined) ""
                             <> nth 2 (columns Sample.joined) "")
    by (simpl; intros j' H; lia).
  split.
  - split; [exact Hj|].
    exact (@parseLine_last_column_wins (columns Sample.joined)
             [VNum 1; VStr "Alice"; VNum 7] 2 Hproto Hj Hlast).
  - exact (@parseLine_last_column_wins (columns Sample.joined)
             [VNum 2; VStr "Bob"] 2 Hproto Hj Hlast).
Defined.

Lemma people_distinct : NoDup (map fst Sample.people).
Proof. repeat constructor; simpl; intuition discriminate. Defined.

Lemma accounts_distinct : NoDup (map fst Sample.accounts).
Proof. repeat constructor; simpl; intuition discriminate. Defined.

Lemma broken_schema_distinct : NoDup (map fst Sample.broken_schema).
Proof. repeat constructor; simpl; intuition discriminate. Defined.

(** The increments column id is the key, not the unique column before
    it. *)
Lemma findKey_first_increments_people :
  increments (VStr "increments") = true /\
  findKey Sample.people = Some {| key := "id"; hasIncrements := true |}.
Proof.
  split; [reflexivity|].
  apply (@findKey_first_increments
           [("email", VObj [("type", VStr "String"); ("unique", VBool true)])]
           [("name", VFun 1)] "id" (VStr "increments") people_distinct).
  - repeat constructor.
  - reflexivity.
Defined.

(** The primary column code is the key, not the unique column before
    it. *)
Lemma findKey_last_key_wins_accounts :
  keyed (VObj [("type", VStr "String"); ("unique", VBool true)]) = true /\
  keyed (VObj [("type", VStr "String"); ("primary", VBool true)]) = true /\
  findKey Sample.accounts = Some {| key := "code"; hasIncrements := false |}.
Proof.
  split; [reflexivity|]. split; [reflexivity|].
  apply (@findKey_last_key_wins
           [("email", VObj [("type", VStr "String"); ("unique", VBool true)])]
           [("name", VFun 1)] "code"
           (VObj [("type", VStr "String"); ("primary", VBool true)])
           accounts_distinct); try reflexivity; repeat constructor.
Defined.

(** The undefined column age makes [findKey] throw. *)
Lemma findKey_unreadable_column_age :
  readable VUndefined = false /\
  findKey Sample.broken_schema = None.
Proof.
  split; [reflexivity|].
  apply (@findKey_unreadable_column [("name", VFun 1)]
           [("id", VStr "increments")] "age" VUndefined
           broken_schema_distinct).
  - repeat constructor.
  - reflexivity.
Defined.

(** What [findKey] returns on the schema people. *)
Lemma findKey_sound_people :
  Forall (fun kv => readable (snd kv) = true) Sample.people /\
  exists info,
    findKey Sample.people = Some info /\
    (key info = "" \/ In (key info) (map fst Sample.people)) /\
    (hasIncrements info = true ->
     exists props,
       In (key info, props) Sample.people /\ increments props = true) /\
    (hasIncrements info = false ->
     Forall (fun kv => increments (snd kv) = false) Sample.people).
Proof.
  assert (Hr : Forall (fun kv => readable (snd kv) = true) Sample.people)
    by (repeat constructor).
  split; [exact Hr|].
  exact (@findKey_sound Sample.people people_distinct Hr).
Defined.

(** The pieces of users, users.age and users.age.extra. *)
Lemma location_parts_pieces_users :
  (lacks "." "users" = true /\ lacks "." "age" = true) /\
  location_parts "users" = ("users", None) /\
  location_parts "users.age" = ("users", Some "age") /\
  location_parts "users.age.extra" = ("users", Some "age").
Proof.
  split; [split; reflexivity|].
  apply (@location_parts_pieces "users" "age" "extra"); reflexivity.
Defined.

(** A select without [needResponse] on the native driver gives the number
    of its rows. *)
Lemma runQuery_native_counts_users :
  isNative (Sample.native None) = true /\
  exists response,
    runQuery Sample.all_users Sample.writing (Sample.native None)
    = (Resolved response,
       finished (Sample.native None) [CNative (toString Sample.all_users)]
                Sample.empty Sample.empty) /\
    response = VNum 2.
Proof.
  split; [reflexivity|].
  assert (Hq : callbacks_quiet (Sample.native None) Sample.writing
                 (toString Sample.all_users))
    by (split; discriminate).
  assert (He : awaitQuery (db (Sample.native None)) Sample.all_users
               = Ok (VArr [VObj [("id", VNum 1); ("name", VStr "Alice")];
                           VObj [("id", VNum 2); ("name", VStr "Bob")]],
                     Sample.empty))
    by reflexivity.
  destruct (@runQuery_native_counts _ _ (Sample.native None) Sample.all_users
              Sample.writing _ _ eq_refl Hq eq_refl He)
    as (response & Hrun & _ & Hrows & _).
  exists response. split; [exact Hrun|].
  exact (Hrows _ eq_refl).
Defined.

(** A first call rejected by the logger leaves the name defined and the
    table not created, and the next call returns the model; a call whose
    constructor throws on a schema without columns leaves the registry as
    it was. *)
Lemma model_registers_first_rejected :
  let t := Sample.embedded (Some Sample.failing) in
  let first := model "one" Sample.person VUndefined t in
  map_get (definitions t) "one" = None /\
  (construct "one" Sample.person VUndefined
   = Ok (newModel "one" Sample.person VUndefined) /\
   fst first = Rejected (CallbackError "logger failed") /\
   Sample.tables (db (snd first)) = [] /\
   map_get (definitions (snd first)) "one"
   = Some (newModel "one" Sample.person VUndefined) /\
   model "one" Sample.person VUndefined (snd first)
   = (Resolved (newModel "one" Sample.person VUndefined), snd first)) /\
  (exists e,
      construct "one" Sample.no_columns VUndefined = Throw e /\
      model "one" Sample.no_columns VUndefined t = (Rejected e, t) /\
      map_get (definitions t) "one" = None /\
      calls t = []).
Proof.
  intros t first.
  destruct (@model_registers_first _ _ Sample.builders t "one"
              Sample.person VUndefined eq_refl) as [_ Hbuilt].
  destruct (Hbuilt _ eq_refl) as [Hdef Hnext].
  destruct (@model_registers_first _ _ Sample.builders t "one"
              Sample.no_columns VUndefined eq_refl) as [Hthrown _].
  split; [reflexivity|]. split.
  - split; [reflexivity|]. split; [reflexivity|]. split; [reflexivity|].
    split; [exact Hdef | apply Hnext].
  - eexists. split; [reflexivity|].
    split; [apply Hthrown; reflexivity|]. split; reflexivity.
Defined.


(** [getModel] after defining the model one, after defining it again
    and after dropping it. *)
Lemma getModel_follows_registry_one :
  getModel "one" (snd (model "one" Sample.person VUndefined
                             (Sample.embedded None)))
  = Ok (newModel "one" Sample.person VUndefined) /\
  getModel "one" (snd (model "one" Sample.no_columns VNull Sample.with_one))
  = Ok (newModel "one" Sample.person VUndefined) /\
  exists t',
    dropModel "one" Sample.with_one = (Resolved true, t') /\
    (exists e,
        getModel "one" t' = Throw e /\
        message_of e = "no model defined by the name 'one'") /\
    getModel "two" t' = getModel "two" Sample.with_one.
Proof.
  destruct (@getModel_follows_registry _ _ Sample.builders
              (Sample.embedded None) "one") as (_ & Hbuilt & _).
  destruct (@getModel_follows_registry _ _ Sample.builders
              Sample.with_one "one") as (Hheld & _ & Hdrop).
  split; [exact (Hbuilt Sample.person VUndefined _ eq_refl eq_refl)|].
  assert (Hg : map_get (definitions Sample.with_one) "one"
               = Some (newModel "one" Sample.person VUndefined))
    by (vm_compute; reflexivity).
  split; [exact (Hheld Sample.no_columns VNull _ Hg)|].
  assert (Hd : dropModel "one" Sample.with_one
               = (Resolved true, snd (dropModel "one" Sample.with_one)))
    by (vm_compute; reflexivity).
  exists (snd (dropModel "one" Sample.with_one)). split; [exact Hd|].
  destruct (Hdrop _ Hd) as [Hgone Hother].
  split; [exact Hgone | apply Hother; discriminate].
Defined.

(** The names after defining one, two and one again, and after dropping
    one. *)
Lemma models_order_one_two :
  let t2 := snd (model "two" Sample.person VUndefined Sample.with_one) in
  models t2 = ["one"; "two"] /\
  models (snd (model "one" Sample.person VUndefined t2)) = ["one"; "two"] /\
  models (snd (model "three" Sample.no_columns VUndefined t2))
  = ["one"; "two"] /\
  (exists t', dropModel "one" t2 = (Resolved true, t') /\
              models t' = ["two"]) /\
  NoDup (models t2).
Proof.
  intros t2.
  destruct (@models_order _ _ Sample.builders Sample.with_one "two"
              Sample.person VUndefined) as (Hadd & _ & Hnd).
  destruct (@models_order _ _ Sample.builders t2 "one"
              Sample.person VUndefined) as (Hsame & Hdrop & _).
  destruct (@models_order _ _ Sample.builders t2 "three"
              Sample.no_columns VUndefined) as (Hthrown & _ & _).
  split; [exact Hadd|]. split; [exact Hsame|]. split; [exact Hthrown|].
  split.
  - assert (Hd : dropModel "one" t2
                 = (Resolved true, snd (dropModel "one" t2)))
      by (vm_compute; reflexivity).
    exists (snd (dropModel "one" t2)). split; [exact Hd|].
    exact (Hdrop _ Hd).
  - apply Hnd. repeat constructor. simpl. tauto.
Defined.

(** Defining the model one on an empty registry and dropping it. *)
Lemma model_then_dropModel_one :
  map_get (definitions (Sample.embedded None)) "one" = None /\
  exists t',
    dropModel "one" (snd (model "one" Sample.person VUndefined
                                (Sample.embedded None)))
    = (Resolved true, t') /\
    definitions t' = [] /\
    Sample.tables (db t') = [].
Proof.
  split; [reflexivity|].
  destruct (@model_then_dropModel _ _ Sample.builders (Sample.embedded None)
              "one" Sample.person VUndefined
              (newModel "one" Sample.person VUndefined)
              {| Sample.tables := []; Sample.modified := 0 |} eq_refl eq_refl)
    as (t' & Hd & Hdefs & Hdb).
  - split; [split; discriminate|].
    split; [reflexivity | eexists; reflexivity].
  - exists t'. split; [exact Hd|]. split; [exact Hdefs|]. now rewrite Hdb.
Defined.

(** Locations on a registry that defines the model one. *)
Lemma location_dispatch_one :
  let m := newModel "one" Sample.person VUndefined in
  (lacks "." "one" = true /\ lacks "." "name" = true) /\
  map_get (definitions Sample.with_one) "one" = Some m /\
  find "one." VUndefined VUndefined Sample.with_one
  = Ok (m, CallFind VUndefined VUndefined) /\
  find "one.name" VUndefined VUndefined Sample.with_one
  = Ok (m, CallFindIn "name" VUndefined VUndefined) /\
  remove "one.name" VUndefined Sample.with_one
  = Throw (InvalidCriteriaError "no model defined by the name 'one.name'").
Proof.
  intros m.
  destruct (@location_dispatch _ Sample.with_one "one" "name"
              VUndefined VUndefined eq_refl eq_refl)
    as (Hfound & _ & Hremove).
  destruct (Hfound m eq_refl) as (_ & Hdot & Hcol & _).
  split; [split; reflexivity|]. split; [reflexivity|].
  split; [exact Hdot|]. split; [apply Hcol; discriminate|].
  apply Hremove. reflexivity.
Defined.

(** A drop rejected by the logger keeps the model one defined. *)
Lemma dropModel_keeps_on_failure_broken :
  fst (dropModel "one" Sample.with_one_broken)
  = Rejected (CallbackError "logger failed") /\
  definitions (snd (dropModel "one" Sample.with_one_broken))
  = definitions Sample.with_one_broken.
Proof.
  split; [reflexivity|].
  rewrite (@dropModel_keeps_on_failure _ _ Sample.builders
             Sample.with_one_broken "one").
  reflexivity.
Defined.

(** Ordering by a column adds one clause after the clauses there. *)
Lemma buildOrder_appends_age :
  exists clauses,
    List.length clauses <= 1 /\
    buildOrder [Where2 (VStr "name") (VStr "Alice")]
               (VArr [VStr "age"; VStr "desc"])
    = [Where2 (VStr "name") (VStr "Alice")] ++ clauses.
Proof.
  destruct (buildOrder_appends (VArr [VStr "age"; VStr "desc"]))
    as (clauses & Hlen & Happ).
  exists clauses. split; [exact Hlen | apply Happ].
Defined.
